(** * Fun with Flags: the quiz session controller of [src/App.tsx]

    The [Game] component keeps seven pieces of React state and changes them
    from four places: the click handler of an option button
    ([handleAnswerClick]), the delayed callback it schedules
    ([handleNextQuestion]), the asynchronous request for fun facts
    ([generateFacts]) and the "Play Again" button ([restartGame]).

    The embedding follows the component:
    - the seven [useState] cells are the fields of the record [State], with
      one setter per cell, named as in the source;
    - a handler is a computation in a small monad [M] that threads the
      state, collects the effects handed to the host ([setTimeout], the
      call of the text-generation service, [console.error]) and may end in
      a [TypeError];
    - the constructor of the client of the text-generation service, which
      [generateFacts] calls inside its [try] block, is a parameter: it
      returns or throws;
    - a handler is a closure of the render that created it: what it READS
      ([answerState], [currentQuestion], [currentQuestionIndex]) comes from
      that render, what it WRITES goes to the live state.  The render is an
      explicit argument of the handlers;
    - the host (event loop, timers, pending requests, the buttons that are
      on screen) is the record [World] with a deterministic [step]. *)

From stdpp Require Import base option list strings.
From Stdlib Require Import Lia.

Local Open Scope string_scope.
Local Open Scope list_scope.

(** ** Data model *)

(** [AnswerState] of [./types]; the three members are the ones the
    component uses. *)
Inductive AnswerState := IDLE | CORRECT | INCORRECT.

Global Instance AnswerState_eq_dec : EqDecision AnswerState.
Proof. solve_decision. Defined.

(** An element of [FLAG_QUESTIONS]; the fields are the ones the component
    reads. *)
Record Question := {
  flagUrl : string;
  options : list string;
  correctAnswer : string
}.

(** The [useState] cells of [Game], in declaration order. *)
Record State := {
  currentQuestionIndex : nat;
  score : nat;
  selectedAnswer : option string;
  answerState : AnswerState;
  isFinished : bool;
  facts : option string;
  isLoadingFacts : bool
}.

(** The initial values given to [useState]. *)
Definition initialState : State := {|
  currentQuestionIndex := 0;
  score := 0;
  selectedAnswer := None;
  answerState := IDLE;
  isFinished := false;
  facts := None;
  isLoadingFacts := false
|}.

(** What the awaited [ai.models.generateContent] comes back with:
    [response.text], or a rejection. *)
Inductive Response := Fulfilled (text : string) | Rejected.

(** What a handler hands to the host. A timeout carries the
    [currentQuestionIndex] its callback closes over. *)
Inductive Effect :=
  | SetTimeout (capturedIndex : nat) (delay : nat)
  | GenerateContent (model : string) (contents : string)
  | ConsoleError (message : string).

(** ** The handler monad *)

Inductive Completion (A : Type) :=
  | Normal (a : A)
  | Throw.
Arguments Normal {A} a.
Arguments Throw {A}.

Global Instance Completion_eq_dec {A} `{EqDecision A} : EqDecision (Completion A).
Proof. solve_decision. Defined.

Definition M (A : Type) : Type := State -> Completion A * State * list Effect.

Global Instance M_ret : MRet M := fun A (a : A) s => (Normal a, s, []).

Global Instance M_bind : MBind M := fun A B (k : A -> M B) (m : M A) s =>
  match m s with
  | (Normal a, s1, e1) =>
      let '(c, s2, e2) := k a s1 in (c, s2, e1 ++ e2)
  | (Throw, s1, e1) => (Throw, s1, e1)
  end.

Definition throw {A} : M A := fun s => (Throw, s, []).
Definition emit (e : Effect) : M unit := fun s => (Normal tt, s, [e]).
Definition modify (f : State -> State) : M unit := fun s => (Normal tt, f s, []).

Definition finalState {A} (r : Completion A * State * list Effect) : State :=
  snd (fst r).
Definition effects {A} (r : Completion A * State * list Effect) : list Effect :=
  snd r.
Definition completion {A} (r : Completion A * State * list Effect) : Completion A :=
  fst (fst r).

(** The setters returned by [useState]. *)
Definition setCurrentQuestionIndex (v : nat) : M unit :=
  modify (fun s =>
    {| currentQuestionIndex := v; score := score s;
       selectedAnswer := selectedAnswer s; answerState := answerState s;
       isFinished := isFinished s; facts := facts s;
       isLoadingFacts := isLoadingFacts s |}).

(** [setScore] is called with a value and with an updater
    ([prev => prev + 1]); the updater form covers both. *)
Definition setScore (f : nat -> nat) : M unit :=
  modify (fun s =>
    {| currentQuestionIndex := currentQuestionIndex s; score := f (score s);
       selectedAnswer := selectedAnswer s; answerState := answerState s;
       isFinished := isFinished s; facts := facts s;
       isLoadingFacts := isLoadingFacts s |}).

Definition setSelectedAnswer (v : option string) : M unit :=
  modify (fun s =>
    {| currentQuestionIndex := currentQuestionIndex s; score := score s;
       selectedAnswer := v; answerState := answerState s;
       isFinished := isFinished s; facts := facts s;
       isLoadingFacts := isLoadingFacts s |}).

Definition setAnswerState (v : AnswerState) : M unit :=
  modify (fun s =>
    {| currentQuestionIndex := currentQuestionIndex s; score := score s;
       selectedAnswer := selectedAnswer s; answerState := v;
       isFinished := isFinished s; facts := facts s;
       isLoadingFacts := isLoadingFacts s |}).

Definition setIsFinished (v : bool) : M unit :=
  modify (fun s =>
    {| currentQuestionIndex := currentQuestionIndex s; score := score s;
       selectedAnswer := selectedAnswer s; answerState := answerState s;
       isFinished := v; facts := facts s;
       isLoadingFacts := isLoadingFacts s |}).

Definition setFacts (v : option string) : M unit :=
  modify (fun s =>
    {| currentQuestionIndex := currentQuestionIndex s; score := score s;
       selectedAnswer := selectedAnswer s; answerState := answerState s;
       isFinished := isFinished s; facts := v;
       isLoadingFacts := isLoadingFacts s |}).

Definition setIsLoadingFacts (v : bool) : M unit :=
  modify (fun s =>
    {| currentQuestionIndex := currentQuestionIndex s; score := score s;
       selectedAnswer := selectedAnswer s; answerState := answerState s;
       isFinished := isFinished s; facts := facts s;
       isLoadingFacts := v |}).

(** ** [generateFacts] *)

Definition factsPrompt (countryName : string) : string :=
  String.append "Tell me a few fun facts about "
    (String.append countryName
       ". Include what the colors on its flag represent, its location (continent), and its approximate population. Keep the tone fun and the text concise for a quiz game.").

Definition factsFallback : string :=
  "Sorry, I couldn't fetch any fun facts right now.".

(** The part of [generateFacts] that runs once the [try] block is left:
    the rest of the [try] block after a fulfilled [await], or the [catch]
    block after an exception, then the [finally] block. It closes over the
    setters only. *)
Definition generateFacts_settled (r : Response) : M unit :=
  match r with
  | Fulfilled text => setFacts (Some text)
  | Rejected =>
      emit (ConsoleError "Error generating facts:") ;;
      setFacts (Some factsFallback)
  end ;;
  setIsLoadingFacts false.

(** ** [restartGame] *)

Definition restartGame : M unit :=
  setCurrentQuestionIndex 0 ;;
  setScore (fun _ => 0) ;;
  setSelectedAnswer None ;;
  setAnswerState IDLE ;;
  setIsFinished false ;;
  setFacts None.

(** [option === selectedAnswer], with [selectedAnswer : string | null]. *)
Definition strictEqNullable (opt : string) (sel : option string) : bool :=
  match sel with
  | Some a => String.eqb opt a
  | None => false
  end.

(** The four class strings of [getButtonClass] and the category each one
    stands for. *)
Inductive ButtonCategory := Neutral | CorrectStyle | IncorrectStyle | Muted.

Definition classNeutral : string := "bg-white hover:bg-gray-100 border-gray-200".
Definition classCorrect : string := "bg-green-500 text-white border-green-600 scale-105".
Definition classIncorrect : string := "bg-red-500 text-white border-red-600".
Definition classMuted : string := "bg-white border-gray-200 opacity-70".

Definition classOf (c : ButtonCategory) : string :=
  match c with
  | Neutral => classNeutral
  | CorrectStyle => classCorrect
  | IncorrectStyle => classIncorrect
  | Muted => classMuted
  end.

(** The rendering contract in the words of the specification: the category
    as a function of [(evaluation, option, selectedAnswer, correctAnswer)],
    cases tried in order. *)
Definition visualCategory (evaluation : AnswerState) (opt : string)
    (selected : option string) (correct : string) : ButtonCategory :=
  if decide (evaluation = IDLE) then Neutral
  else if decide (opt = correct) then CorrectStyle
  else if decide (selected = Some opt /\ opt <> correct) then IncorrectStyle
  else Muted.

(** ** The host: clock, timers, requests in flight *)

Record Timer := { due : nat; capturedIndex : nat }.

(** A request in flight. [issuedAt] is the [currentQuestionIndex] of the
    render whose click issued it: the component keeps no such tag, the
    host records it so that a late response can be told from a timely
    one. *)
Record Request := { issuedAt : nat; prompt : string }.

Record World := {
  store : State;
  clock : nat;
  timers : list Timer;
  inflight : list Request
}.

Definition initialWorld : World :=
  {| store := initialState; clock := 0; timers := []; inflight := [] |}.

(** What the host does with the effects of a handler that ran at time
    [now]: a timeout becomes a timer due [delay] later, a call of the
    service becomes a request in flight. *)
Definition timersOf (now : nat) (es : list Effect) : list Timer :=
  omap (fun e => match e with
                 | SetTimeout i d => Some {| due := now + d; capturedIndex := i |}
                 | _ => None
                 end) es.

Definition requestsOf (index : nat) (es : list Effect) : list Request :=
  omap (fun e => match e with
                 | GenerateContent _ p => Some {| issuedAt := index; prompt := p |}
                 | _ => None
                 end) es.

(** The delays of the timeouts among the effects of a handler. *)
Definition delaysOf (es : list Effect) : list nat :=
  omap (fun e => match e with
                 | SetTimeout _ d => Some d
                 | _ => None
                 end) es.

(** Run a handler as one task of the event loop: its state updates are
    committed (also when it throws, the updates queued before the
    exception stay queued) and its effects are handed to the host. *)
Definition dispatch (h : M unit) (w : World) : World :=
  let r := h (store w) in
  {| store := finalState r;
     clock := clock w;
     timers := timers w ++ timersOf (clock w) (effects r);
     inflight :=
       inflight w ++ requestsOf (currentQuestionIndex (store w)) (effects r) |}.

Inductive Event :=
  | Click (opt : string)
  | TimerFires (i : nat)
  | Settles (i : nat) (r : Response)
  | PlayAgain
  | Elapse (dt : nat).

(** A sample of the shape [FLAG_QUESTIONS] has: used to run the controller
    on concrete sessions. *)
Definition sampleQuestions : list Question :=
  [ {| flagUrl := "https://flagcdn.com/w320/fr.png";
       options := ["Italy"; "France"; "Netherlands"; "Russia"];
       correctAnswer := "France" |};
    {| flagUrl := "https://flagcdn.com/w320/jp.png";
       options := ["China"; "South Korea"; "Japan"; "Bangladesh"];
       correctAnswer := "Japan" |};
    {| flagUrl := "https://flagcdn.com/w320/br.png";
       options := ["Brazil"; "Portugal"; "Argentina"; "Mexico"];
       correctAnswer := "Brazil" |} ].

(** ** What [Game] renders *)

(** One option button of the JSX: its text, its [disabled] attribute and
    the part of its class that [getButtonClass] computes. *)
Record OptionButton := {
  label : string;
  disabled : bool;
  className : string
}.

(** The state-dependent content of the element [Game] returns: the
    "Quiz Complete!" screen with the two numbers of its sentence, or the
    question screen with the flag, the option buttons, the "Generating fun
    facts..." note, the facts panel and the two numbers of the
    "Question i of n" line. *)
Inductive GameView :=
  | QuizComplete (scored : nat) (total : nat)
  | QuestionView (flag : string) (buttons : list OptionButton)
      (generating : bool) (factsPanel : option string)
      (questionNumber : nat) (total : nat).

(** [facts && ...]: [null] and the empty string are falsy. *)
Definition truthy (v : option string) : bool :=
  match v with
  | Some t => negb (String.eqb t "")
  | None => false
  end.

(** [Array.prototype.map] with a callback that may throw. *)
Fixpoint mapThrowing {A B} (f : A -> Completion B) (l : list A)
    : Completion (list B) :=
  match l with
  | [] => Normal []
  | x :: l' =>
      match f x with
      | Normal y =>
          match mapThrowing f l' with
          | Normal ys => Normal (y :: ys)
          | Throw => Throw
          end
      | Throw => Throw
      end
  end.

(** ** A whole playthrough *)

(** The events of one answered question: the click, the wait for the
    delay of its timer, the timer. *)
Definition answerEvents (q : Question) (a : string) : list Event :=
  [Click a;
   Elapse (if String.eqb a (correctAnswer q) then 3500 else 1500);
   TimerFires 0].

(** One answer per question, in order. *)
Fixpoint playthrough (qs : list Question) (answers : list string)
    : list Event :=
  match qs, answers with
  | q :: qs', a :: answers' => answerEvents q a ++ playthrough qs' answers'
  | _, _ => []
  end.

(** How many of the answers are the correct answer of their question. *)
Fixpoint correctCount (qs : list Question) (answers : list string) : nat :=
  match qs, answers with
  | q :: qs', a :: answers' =>
      (if String.eqb a (correctAnswer q) then 1 else 0)
      + correctCount qs' answers'
  | _, _ => 0
  end.

(** Sample worlds of a session on [sampleQuestions]: after a wrong answer
    to the first question, and after [sessionAllCorrect] below. *)
Definition answeredItalyWorld : World :=
  {| store :=
       {| currentQuestionIndex := 0;
          score := 0;
          selectedAnswer := Some "Italy";
          answerState := INCORRECT;
          isFinished := false;
          facts := None;
          isLoadingFacts := false |};
     clock := 0;
     timers := [{| due := 1500; capturedIndex := 0 |}];
     inflight := [] |}.

Definition finishedWorld : World :=
  {| store :=
       {| currentQuestionIndex := 2;
          score := 3;
          selectedAnswer := Some "Brazil";
          answerState := CORRECT;
          isFinished := true;
          facts := None;
          isLoadingFacts := true |};
     clock := 3500 + 3500 + 3500;
     timers := [];
     inflight :=
       [{| issuedAt := 0; prompt := factsPrompt "France" |};
        {| issuedAt := 1; prompt := factsPrompt "Japan" |};
        {| issuedAt := 2; prompt := factsPrompt "Brazil" |}] |}.

(** The buttons of the first sample question after "Italy" was clicked. *)
Definition answeredItalyButtons : list OptionButton :=
  [{| label := "Italy"; disabled := true; className := classIncorrect |};
   {| label := "France"; disabled := true; className := classCorrect |};
   {| label := "Netherlands"; disabled := true; className := classMuted |};
   {| label := "Russia"; disabled := true; className := classMuted |}].

Definition sampleFrance : Question :=
  {| flagUrl := "https://flagcdn.com/w320/fr.png";
     options := ["Italy"; "France"; "Netherlands"; "Russia"];
     correctAnswer := "France" |}.

(** A session on [sampleQuestions] with every question answered
    correctly, up to the advance that finishes it: 3500 time units pass
    between each click and its timer, and no response has arrived yet. *)
Definition sessionAllCorrect : list Event :=
  [Click "France"; Elapse 3500; TimerFires 0;
   Click "Japan"; Elapse 3500; TimerFires 0;
   Click "Brazil"; Elapse 3500; TimerFires 0].

(** The state [sessionAllCorrect] ends in. *)
Definition finishedWhileLoading : State :=
  {| currentQuestionIndex := 2;
     score := 3;
     selectedAnswer := Some "Brazil";
     answerState := CORRECT;
     isFinished := true;
     facts := None;
     isLoadingFacts := true |}.

(** A session on [sampleQuestions] in which the first question is answered
    correctly and the advance happens before the response arrives. *)
Definition sessionSlowResponse : list Event :=
  [Click "France"; Elapse 3500; TimerFires 0].

(** The world [sessionSlowResponse] ends in: the second question is on
    screen, the request of the first one is in flight. *)
Definition slowResponseWorld : World :=
  {| store :=
       {| currentQuestionIndex := 1;
          score := 1;
          selectedAnswer := None;
          answerState := IDLE;
          isFinished := false;
          facts := None;
          isLoadingFacts := true |};
     clock := 3500;
     timers := [];
     inflight := [{| issuedAt := 0; prompt := factsPrompt "France" |}] |}.

(** The last question of [sampleQuestions], answered correctly and not
    yet advanced. *)
Definition answeredBrazil : State :=
  {| currentQuestionIndex := 2;
     score := 3;
     selectedAnswer := Some "Brazil";
     answerState := CORRECT;
     isFinished := false;
     facts := None;
     isLoadingFacts := true |}.

(** An evaluated state: "Italy" was selected on the first question. *)
Definition answeredItaly : State :=
  {| currentQuestionIndex := 0;
     score := 0;
     selectedAnswer := Some "Italy";
     answerState := INCORRECT;
     isFinished := false;
     facts := None;
     isLoadingFacts := false |}.

(** ** [AuthScreen] and [App] *)

Module AuthScreen.

(** The [useState] cells of [AuthScreen], in declaration order. *)
Record State := {
  isSignIn : bool;
  email : string;
  password : string;
  name : string;
  error : option string;
  isLoading : bool
}.

Definition initialState : State := {|
  isSignIn := true;
  email := "";
  password := "";
  name := "";
  error := None;
  isLoading := false
|}.

Definition setIsSignIn (v : bool) (s : State) : State :=
  {| isSignIn := v; email := email s; password := password s;
     name := name s; error := error s; isLoading := isLoading s |}.
Definition setEmail (v : string) (s : State) : State :=
  {| isSignIn := isSignIn s; email := v; password := password s;
     name := name s; error := error s; isLoading := isLoading s |}.
Definition setPassword (v : string) (s : State) : State :=
  {| isSignIn := isSignIn s; email := email s; password := v;
     name := name s; error := error s; isLoading := isLoading s |}.
Definition setName (v : string) (s : State) : State :=
  {| isSignIn := isSignIn s; email := email s; password := password s;
     name := v; error := error s; isLoading := isLoading s |}.
Definition setError (v : option string) (s : State) : State :=
  {| isSignIn := isSignIn s; email := email s; password := password s;
     name := name s; error := v; isLoading := isLoading s |}.
Definition setIsLoading (v : bool) (s : State) : State :=
  {| isSignIn := isSignIn s; email := email s; password := password s;
     name := name s; error := error s; isLoading := v |}.

(** What a handler of [AuthScreen] hands to its surroundings: the timeout
    of [handleSubmit] with the render its callback closes over, and the
    call of the [onLogin] prop. *)
Inductive Effect :=
  | PreventDefault
  | SetTimeout (render : State) (delay : nat)
  | OnLogin.

(** [!v] for a string: only the empty string is falsy. *)
Definition not_ (v : string) : bool := String.eqb v "".

(** [handleSubmit] of the render [render], up to the [setTimeout]. *)
Definition handleSubmit (render : State) (s : State) : State * list Effect :=
  (setIsLoading true (setError None s),
   [PreventDefault; SetTimeout render 1000]).

(** The callback [handleSubmit] passes to [setTimeout]: [email],
    [password], [isSignIn] and [name] are those of the render of the
    submission. *)
Definition submitTimeout (render : State) (s : State) : State * list Effect :=
  if not_ (email render) || not_ (password render)
     || (negb (isSignIn render) && not_ (name render))
  then
    (setIsLoading false (setError (Some "Please fill in all fields.") s), [])
  else
    (setIsLoading false s, [OnLogin]).

(** The [onClick] of the "Sign Up" / "Sign In" link. *)
Definition toggleMode (render : State) (s : State) : State * list Effect :=
  (setError None (setIsSignIn (negb (isSignIn render)) s), []).

(** The fields are filled in the sense of the check in [handleSubmit]. *)
Definition filled (render : State) : Prop :=
  email render <> "" /\ password render <> "" /\
  (isSignIn render = true \/ name render <> "").

(** A pending timeout of some mounted or unmounted [AuthScreen]: [owner]
    counts the mounts, it tells whose setters the callback calls. *)
Record Timer := { due : nat; owner : nat; captured : State }.

(** [App] with its [AuthScreen]: [isAuthenticated] is the state of [App];
    while it is false an [AuthScreen] is mounted, [store] is its state and
    [instance] its number; while it is true [Game] is mounted instead. Of
    [Game] only the "Sign Out" button matters here: [onLogout] is all it
    does to [App]. *)
Record World := {
  isAuthenticated : bool;
  instance : nat;
  store : State;
  clock : nat;
  timers : list Timer
}.

Definition initialWorld : World :=
  {| isAuthenticated := false; instance := 0; store := initialState;
     clock := 0; timers := [] |}.

Inductive Event :=
  | Submit
  | TimerFires (i : nat)
  | Toggle
  | TypeEmail (v : string)
  | TypePassword (v : string)
  | TypeName (v : string)
  | SignOut
  | Elapse (dt : nat).

(** The timers the effects of a handler of the mounted instance add. *)
Definition timersOf (now : nat) (who : nat) (es : list Effect) : list Timer :=
  omap (fun e => match e with
                 | SetTimeout r d =>
                     Some {| due := now + d; owner := who; captured := r |}
                 | _ => None
                 end) es.

(** Whether [onLogin] is among the effects. *)
Definition callsOnLogin (es : list Effect) : bool :=
  existsb (fun e => match e with OnLogin => true | _ => false end) es.

(** A handler of the mounted [AuthScreen] run on the world. *)
Definition dispatch (h : State -> State * list Effect) (w : World) : World :=
  let r := h (store w) in
  {| isAuthenticated := isAuthenticated w || callsOnLogin (snd r);
     instance := instance w;
     store := fst r;
     clock := clock w;
     timers := timers w ++ timersOf (clock w) (instance w) (snd r) |}.

(** One event; [None] when it cannot happen in [w]. The form is on screen
    while [isAuthenticated] is false; its submit button is disabled while
    [isLoading]; the name field is rendered in sign-up mode only; "Sign
    Out" is on screen while [isAuthenticated] is true and lets [App] mount
    a new [AuthScreen]. The callback of a timer calls the setters of the
    instance that set it, which do nothing once that instance is
    unmounted, and [onLogin], which sets the state of [App]. The check
    the browser makes of the format of the e-mail field is left out: a
    submission is possible with any text in the fields. *)
Definition step (w : World) (e : Event) : option World :=
  match e with
  | Submit =>
      if isAuthenticated w || isLoading (store w) then None
      else Some (dispatch (handleSubmit (store w)) w)
  | TimerFires i =>
      match timers w !! i with
      | Some t =>
          if decide (due t <= clock w) then
            let r := submitTimeout (captured t) (store w) in
            let mounted :=
              negb (isAuthenticated w) && bool_decide (owner t = instance w) in
            Some {| isAuthenticated := isAuthenticated w || callsOnLogin (snd r);
                    instance := instance w;
                    store := if mounted then fst r else store w;
                    clock := clock w;
                    timers := delete i (timers w) |}
          else None
      | None => None
      end
  | Toggle =>
      if isAuthenticated w then None
      else Some (dispatch (toggleMode (store w)) w)
  | TypeEmail v =>
      if isAuthenticated w then None
      else Some (dispatch (fun s => (setEmail v s, [])) w)
  | TypePassword v =>
      if isAuthenticated w then None
      else Some (dispatch (fun s => (setPassword v s, [])) w)
  | TypeName v =>
      if isAuthenticated w || isSignIn (store w) then None
      else Some (dispatch (fun s => (setName v s, [])) w)
  | SignOut =>
      if isAuthenticated w then
        Some {| isAuthenticated := false;
                instance := instance w + 1;
                store := initialState;
                clock := clock w;
                timers := timers w |}
      else None
  | Elapse dt =>
      Some {| isAuthenticated := isAuthenticated w;
              instance := instance w;
              store := store w;
              clock := clock w + dt;
              timers := timers w |}
  end.

Fixpoint run (w : World) (es : list Event) : option World :=
  match es with
  | [] => Some w
  | e :: es' =>
      match step w e with
      | Some w' => run w' es'
      | None => None
      end
  end.

Definition reachable (w : World) : Prop :=
  exists es, run initialWorld es = Some w.

Definition isTimerFires (e : Event) : bool :=
  match e with
  | TimerFires _ => true
  | _ => false
  end.

(** What holds of every world of [App]: while the quiz is on screen no
    timeout of an [AuthScreen] is pending; while the form is on screen a
    timeout is pending exactly when [isLoading] is set, there is one at
    most and it belongs to the mounted instance. *)
Definition Inv (w : World) : Prop :=
  if isAuthenticated w then timers w = []
  else if isLoading (store w)
       then exists t, timers w = [t] /\ owner t = instance w
       else timers w = [].

(** A form that waits for the timer [t] of its submission. *)
Definition Awaiting (t : Timer) (w : World) : Prop :=
  isAuthenticated w = false /\
  isLoading (store w) = true /\
  timers w = [t] /\
  owner t = instance w.

(** Sample worlds: a filled sign-in form whose submission is pending and
    due. *)
Definition filledForm : State :=
  {| isSignIn := true; email := "ada@example.com"; password := "secret";
     name := ""; error := None; isLoading := false |}.

Definition dueWorld : World :=
  {| isAuthenticated := false;
     instance := 0;
     store := setIsLoading true filledForm;
     clock := 1000;
     timers := [{| due := 1000; owner := 0; captured := filledForm |}] |}.

End AuthScreen.

Section Game.

(** [FLAG_QUESTIONS] of [./constants], which the component imports. *)
Variable FLAG_QUESTIONS : list Question.

(** [new GoogleGenAI({ apiKey: process.env.API_KEY })] of [@google/genai],
    which is not among the sources: the constructor returns a client or
    throws, depending on the key the build was given. [generateFacts]
    evaluates it inside its [try] block, before the [await]. *)
Variable newGoogleGenAI : Completion unit.

(** [generateFacts] up to the point where the click handler gets control
    back. When the client is constructed the function is suspended at the
    [await] with the call issued, and goes on in [generateFacts_settled]
    when the call has settled. When the constructor throws, the [catch]
    and [finally] blocks run at once, inside the click handler, and no
    call is issued. *)
Definition generateFacts (countryName : string) : M unit :=
  setIsLoadingFacts true ;;
  setFacts None ;;
  match newGoogleGenAI with
  | Normal _ =>
      emit (GenerateContent "gemini-2.5-flash" (factsPrompt countryName))
  | Throw => generateFacts_settled Rejected
  end.

(** Whether [generateFacts] gets as far as the [await]. *)
Definition clientReady : bool :=
  match newGoogleGenAI with
  | Normal _ => true
  | Throw => false
  end.

(** [const currentQuestion = FLAG_QUESTIONS[currentQuestionIndex]];
    [None] is [undefined]. *)
Definition currentQuestion (render : State) : option Question :=
  FLAG_QUESTIONS !! currentQuestionIndex render.

(** Reading a field of [currentQuestion]: a [TypeError] when it is
    [undefined]. *)
Definition currentQuestionOrThrow (render : State) : M Question :=
  match currentQuestion render with
  | Some q => mret q
  | None => throw
  end.

(** [handleNextQuestion]; [useCallback] keys it on [currentQuestionIndex],
    the only value of the render it reads. *)
Definition handleNextQuestion (currentQuestionIndex : nat) : M unit :=
  let nextIndex := currentQuestionIndex + 1 in
  if decide (nextIndex < length FLAG_QUESTIONS) then
    setCurrentQuestionIndex nextIndex ;;
    setSelectedAnswer None ;;
    setAnswerState IDLE ;;
    setFacts None
  else
    setIsFinished true.

(** [handleAnswerClick] of the render [render]. *)
Definition handleAnswerClick (render : State) (opt : string) : M unit :=
  if decide (answerState render <> IDLE) then mret tt
  else
    setSelectedAnswer (Some opt) ;;
    q ← currentQuestionOrThrow render;
    if String.eqb opt (correctAnswer q) then
      setAnswerState CORRECT ;;
      setScore (fun prev => prev + 1) ;;
      generateFacts (correctAnswer q) ;;
      emit (SetTimeout (currentQuestionIndex render) 3500)
    else
      setAnswerState INCORRECT ;;
      emit (SetTimeout (currentQuestionIndex render) 1500).

(** [getButtonClass] of the render [render]. *)
Definition getButtonClass (render : State) (opt : string) : Completion string :=
  if decide (answerState render = IDLE) then Normal classNeutral
  else
    match currentQuestion render with
    | None => Throw
    | Some q =>
        if String.eqb opt (correctAnswer q) then Normal classCorrect
        else if strictEqNullable opt (selectedAnswer render)
                && negb (String.eqb opt (correctAnswer q))
        then Normal classIncorrect
        else Normal classMuted
    end.

(** The operations as the controller performs them on a state [s]: the
    handler of the render of [s], run on [s]. *)
Definition select (opt : string) (s : State) :=
  handleAnswerClick s opt s.
Definition advance (s : State) :=
  handleNextQuestion (currentQuestionIndex s) s.

(** Any number of selection events in a row, each handled by the render
    of the state the previous one left. *)
Definition selectMany (opts : list string) (s : State) : State :=
  foldl (fun s' opt => finalState (select opt s')) s opts.

(** One event of the event loop; [None] when the event cannot happen in
    [w]. Every event is handled by the closures of the render of the
    current state, except a timer, whose callback is the one of the render
    in which it was set. The option buttons are on screen while [isFinished] is false,
    one per element of [currentQuestion.options]; "Play Again" is on screen
    while [isFinished] is true; a timer fires once its delay has elapsed; a
    request settles at any time after it was issued. *)
Definition step (w : World) (e : Event) : option World :=
  match e with
  | Click opt =>
      if isFinished (store w) then None
      else
        match currentQuestion (store w) with
        | Some q =>
            if bool_decide (opt ∈ options q)
            then Some (dispatch (handleAnswerClick (store w) opt) w)
            else None
        | None => None
        end
  | TimerFires i =>
      match timers w !! i with
      | Some t =>
          if decide (due t <= clock w) then
            Some (dispatch (handleNextQuestion (capturedIndex t))
                    {| store := store w; clock := clock w;
                       timers := delete i (timers w);
                       inflight := inflight w |})
          else None
      | None => None
      end
  | Settles i r =>
      match inflight w !! i with
      | Some _ =>
          Some (dispatch (generateFacts_settled r)
                  {| store := store w; clock := clock w;
                     timers := timers w;
                     inflight := delete i (inflight w) |})
      | None => None
      end
  | PlayAgain =>
      if isFinished (store w) then Some (dispatch restartGame w) else None
  | Elapse dt =>
      Some {| store := store w; clock := clock w + dt;
              timers := timers w; inflight := inflight w |}
  end.

Fixpoint run (w : World) (es : list Event) : option World :=
  match es with
  | [] => Some w
  | e :: es' =>
      match step w e with
      | Some w' => run w' es'
      | None => None
      end
  end.

(** The worlds a session can be in. *)
Definition reachable (w : World) : Prop :=
  exists es, run initialWorld es = Some w.

Definition isTimerFires (e : Event) : bool :=
  match e with
  | TimerFires _ => true
  | _ => false
  end.

Definition isPlayAgain (e : Event) : bool :=
  match e with
  | PlayAgain => true
  | _ => false
  end.

(** The delay [handleAnswerClick] passes to [setTimeout]. *)
Definition advanceDelay (opt : string) (q : Question) : nat :=
  if String.eqb opt (correctAnswer q) then 3500 else 1500.

(** A world that waits for the timer [t] of the question it shows. *)
Definition Awaiting (t : Timer) (w : World) : Prop :=
  timers w = [t] /\
  answerState (store w) <> IDLE /\
  isFinished (store w) = false /\
  currentQuestionIndex (store w) = capturedIndex t.

(** What holds of every world of a session. *)
Definition Inv (w : World) : Prop :=
  (is_Some (selectedAnswer (store w)) <-> answerState (store w) <> IDLE) /\
  (isFinished (store w) = true -> answerState (store w) <> IDLE) /\
  (timers w = [] \/
   exists t, timers w = [t] /\
             capturedIndex t = currentQuestionIndex (store w) /\
             answerState (store w) <> IDLE /\
             isFinished (store w) = false) /\
  (0 < length FLAG_QUESTIONS ->
   currentQuestionIndex (store w) < length FLAG_QUESTIONS).

(** The claim that a late response is dropped: a response to a request
    issued under another question index than the current one leaves
    [facts] and [isLoadingFacts] as they are. *)
Definition StaleResponseDiscarded : Prop :=
  forall w i req r w',
    reachable w ->
    inflight w !! i = Some req ->
    issuedAt req <> currentQuestionIndex (store w) ->
    step w (Settles i r) = Some w' ->
    facts (store w') = facts (store w) /\
    isLoadingFacts (store w') = isLoadingFacts (store w).

(** One option button, as [options.map] builds it. *)
Definition renderButton (render : State) (opt : string)
    : Completion OptionButton :=
  match getButtonClass render opt with
  | Normal c =>
      Normal {| label := opt;
                disabled := bool_decide (answerState render <> IDLE);
                className := c |}
  | Throw => Throw
  end.

(** The body of [Game] from [return] on. On the question screen
    [currentQuestion.flagUrl] is read first: a [TypeError] when
    [currentQuestion] is [undefined]. *)
Definition renderGame (render : State) : Completion GameView :=
  if isFinished render then
    Normal (QuizComplete (score render) (length FLAG_QUESTIONS))
  else
    match currentQuestion render with
    | None => Throw
    | Some q =>
        match mapThrowing (renderButton render) (options q) with
        | Normal buttons =>
            Normal (QuestionView (flagUrl q) buttons
                      (isLoadingFacts render)
                      (if truthy (facts render)
                          && bool_decide (answerState render = CORRECT)
                       then facts render else None)
                      (currentQuestionIndex render + 1)
                      (length FLAG_QUESTIONS))
        | Throw => Throw
        end
    end.

(** The button [options.map] builds for [opt] when a question is on
    screen. *)
Definition buttonOf (s : State) (q : Question) (opt : string) : OptionButton :=
  {| label := opt;
     disabled := bool_decide (answerState s <> IDLE);
     className := classOf (visualCategory (answerState s) opt
                             (selectedAnswer s) (correctAnswer q)) |}.

(** What holds of every world of a session, besides [Inv]: the score
    counts the questions answered correctly so far; an evaluation is the
    evaluation of the selected option of the question on screen; the
    loading flag is set only while a request is in flight; a request in
    flight asks about the correct answer of the question that issued it. *)
Definition SessionInv (w : World) : Prop :=
  score (store w)
    <= currentQuestionIndex (store w)
       + (if decide (answerState (store w) = CORRECT) then 1 else 0) /\
  (answerState (store w) <> IDLE ->
   exists q a,
     currentQuestion (store w) = Some q /\
     selectedAnswer (store w) = Some a /\
     a ∈ options q /\
     (answerState (store w) = CORRECT <-> a = correctAnswer q)) /\
  (isLoadingFacts (store w) = true -> inflight w <> []) /\
  Forall (fun req =>
            exists q, FLAG_QUESTIONS !! issuedAt req = Some q /\
                      prompt req = factsPrompt (correctAnswer q))
         (inflight w).

(** ** The handlers, case by case *)

Ltac unfold_handler :=
  cbv [mbind M_bind mret M_ret throw emit modify
       setCurrentQuestionIndex setScore setSelectedAnswer setAnswerState
       setIsFinished setFacts setIsLoadingFacts generateFacts_settled].

Lemma handleAnswerClick_guard render opt s :
  answerState render <> IDLE ->
  handleAnswerClick render opt s = (Normal tt, s, []).
Proof.
  intros H. unfold handleAnswerClick. rewrite decide_True by done. reflexivity.
Qed.

Lemma handleAnswerClick_correct render opt s q :
  answerState render = IDLE ->
  currentQuestion render = Some q ->
  opt = correctAnswer q ->
  handleAnswerClick render opt s =
    (Normal tt,
     {| currentQuestionIndex := currentQuestionIndex s;
        score := score s + 1;
        selectedAnswer := Some opt;
        answerState := CORRECT;
        isFinished := isFinished s;
        facts := if clientReady then None else Some factsFallback;
        isLoadingFacts := clientReady |},
     (if clientReady
      then [GenerateContent "gemini-2.5-flash" (factsPrompt (correctAnswer q))]
      else [ConsoleError "Error generating facts:"])
     ++ [SetTimeout (currentQuestionIndex render) 3500]).
Proof.
  intros Hidle Hq ->. unfold handleAnswerClick, currentQuestionOrThrow.
  rewrite decide_False by (rewrite Hidle; auto).
  rewrite Hq. unfold generateFacts, clientReady.
  destruct newGoogleGenAI as [[]|];
    unfold_handler; rewrite String.eqb_refl; reflexivity.
Qed.

Lemma handleAnswerClick_incorrect render opt s q :
  answerState render = IDLE ->
  currentQuestion render = Some q ->
  opt <> correctAnswer q ->
  handleAnswerClick render opt s =
    (Normal tt,
     {| currentQuestionIndex := currentQuestionIndex s;
        score := score s;
        selectedAnswer := Some opt;
        answerState := INCORRECT;
        isFinished := isFinished s;
        facts := facts s;
        isLoadingFacts := isLoadingFacts s |},
     [SetTimeout (currentQuestionIndex render) 1500]).
Proof.
  intros Hidle Hq Hne. unfold handleAnswerClick, currentQuestionOrThrow.
  rewrite decide_False by (rewrite Hidle; auto).
  rewrite Hq. unfold_handler. apply String.eqb_neq in Hne. rewrite Hne. reflexivity.
Qed.

Lemma handleAnswerClick_undefined render opt s :
  answerState render = IDLE ->
  currentQuestion render = None ->
  handleAnswerClick render opt s =
    (Throw,
     {| currentQuestionIndex := currentQuestionIndex s;
        score := score s;
        selectedAnswer := Some opt;
        answerState := answerState s;
        isFinished := isFinished s;
        facts := facts s;
        isLoadingFacts := isLoadingFacts s |},
     []).
Proof.
  intros Hidle Hq. unfold handleAnswerClick, currentQuestionOrThrow.
  rewrite decide_False by (rewrite Hidle; auto).
  rewrite Hq. reflexivity.
Qed.

Lemma handleNextQuestion_next idx s :
  idx + 1 < length FLAG_QUESTIONS ->
  handleNextQuestion idx s =
    (Normal tt,
     {| currentQuestionIndex := idx + 1;
        score := score s;
        selectedAnswer := None;
        answerState := IDLE;
        isFinished := isFinished s;
        facts := None;
        isLoadingFacts := isLoadingFacts s |},
     []).
Proof.
  intros H. unfold handleNextQuestion. rewrite decide_True by done. reflexivity.
Qed.

Lemma handleNextQuestion_last idx s :
  ~ idx + 1 < length FLAG_QUESTIONS ->
  handleNextQuestion idx s =
    (Normal tt,
     {| currentQuestionIndex := currentQuestionIndex s;
        score := score s;
        selectedAnswer := selectedAnswer s;
        answerState := answerState s;
        isFinished := true;
        facts := facts s;
        isLoadingFacts := isLoadingFacts s |},
     []).
Proof.
  intros H. unfold handleNextQuestion. rewrite decide_False by done. reflexivity.
Qed.

Lemma restartGame_eq s :
  restartGame s =
    (Normal tt,
     {| currentQuestionIndex := 0;
        score := 0;
        selectedAnswer := None;
        answerState := IDLE;
        isFinished := false;
        facts := None;
        isLoadingFacts := isLoadingFacts s |},
     []).
Proof. reflexivity. Qed.

Lemma generateFacts_settled_eq r s :
  generateFacts_settled r s =
    (Normal tt,
     {| currentQuestionIndex := currentQuestionIndex s;
        score := score s;
        selectedAnswer := selectedAnswer s;
        answerState := answerState s;
        isFinished := isFinished s;
        facts := Some (match r with
                       | Fulfilled text => text
                       | Rejected => factsFallback
                       end);
        isLoadingFacts := false |},
     match r with
     | Fulfilled _ => []
     | Rejected => [ConsoleError "Error generating facts:"]
     end).
Proof. destruct r; reflexivity. Qed.

(** ** Events, case by case *)

Lemma step_Click_inv w opt w' :
  step w (Click opt) = Some w' ->
  isFinished (store w) = false /\
  exists q, currentQuestion (store w) = Some q /\ opt ∈ options q /\
            w' = dispatch (handleAnswerClick (store w) opt) w.
Proof.
  cbn. destruct (isFinished (store w)); [done|].
  destruct (currentQuestion (store w)) as [q|]; [|done].
  case_bool_decide; [|done]. intros [= <-]. eauto.
Qed.

Lemma step_TimerFires_inv w i w' :
  step w (TimerFires i) = Some w' ->
  exists t, timers w !! i = Some t /\ due t <= clock w /\
            w' = dispatch (handleNextQuestion (capturedIndex t))
                   {| store := store w; clock := clock w;
                      timers := delete i (timers w);
                      inflight := inflight w |}.
Proof.
  cbn. destruct (timers w !! i) as [t|]; [|done].
  case_decide; [|done]. intros [= <-]. eauto.
Qed.

Lemma step_Settles_inv w i r w' :
  step w (Settles i r) = Some w' ->
  exists req, inflight w !! i = Some req /\
              w' = dispatch (generateFacts_settled r)
                     {| store := store w; clock := clock w;
                        timers := timers w;
                        inflight := delete i (inflight w) |}.
Proof.
  cbn. destruct (inflight w !! i) as [req|]; [|done]. intros [= <-]. eauto.
Qed.

Lemma step_PlayAgain_inv w w' :
  step w PlayAgain = Some w' ->
  isFinished (store w) = true /\ w' = dispatch restartGame w.
Proof.
  cbn. destruct (isFinished (store w)); [|done]. intros [= <-]. eauto.
Qed.

(** ** The invariant *)

Lemma Inv_initial : Inv initialWorld.
Proof.
  unfold Inv; cbn. split_and!; auto.
  split; [intros [? [=]] | done].
Qed.

Lemma Inv_step w e w' : Inv w -> step w e = Some w' -> Inv w'.
Proof.
  intros (Hsel & Hfin & Htim & Hidx) Hstep. destruct e as [opt|i|i r| |dt].
  - apply step_Click_inv in Hstep as (Hnf & q & Hq & _ & ->).
    destruct (decide (answerState (store w) = IDLE)) as [Hidle|Hbusy].
    + assert (timers w = []) as Hnil.
      { destruct Htim as [?|(t & _ & _ & ? & _)]; [done|congruence]. }
      unfold Inv, dispatch.
      destruct (decide (opt = correctAnswer q)) as [Heq|Hne].
      * rewrite (handleAnswerClick_correct _ _ _ q) by done.
        destruct clientReady; cbn; rewrite Hnil;
          (split_and!; [split; [done|eauto]| done | | done]);
          right; eexists; (split_and!; [reflexivity|done|done|done]).
      * rewrite (handleAnswerClick_incorrect _ _ _ q) by done. cbn.
        rewrite Hnil. split_and!; [split; [done|eauto]| done | | done].
        right. eexists. split_and!; [reflexivity|done|done|done].
    + unfold Inv, dispatch. rewrite handleAnswerClick_guard by done. cbn.
      rewrite app_nil_r. done.
  - apply step_TimerFires_inv in Hstep as (t & Ht & _ & ->).
    destruct Htim as [Hnil|(t0 & Ht0 & Hcap & Hbusy & Hnf)].
    { rewrite Hnil in Ht. done. }
    rewrite Ht0 in Ht. destruct i as [|i]; [|done]. injection Ht as <-.
    unfold Inv, dispatch.
    destruct (decide (capturedIndex t0 + 1 < length FLAG_QUESTIONS)) as [Hlt|Hge].
    + rewrite handleNextQuestion_next by done. cbn. rewrite Ht0. cbn.
      split_and!; [split; [intros [? [=]]|done] | congruence | by left | lia].
    + rewrite handleNextQuestion_last by done. cbn. rewrite Ht0. cbn.
      split_and!; [done | done | by left | done].
  - apply step_Settles_inv in Hstep as (req & _ & ->).
    unfold Inv, dispatch. rewrite generateFacts_settled_eq.
    destruct r; cbn; rewrite app_nil_r; done.
  - apply step_PlayAgain_inv in Hstep as (Hf & ->).
    assert (timers w = []) as Hnil.
    { destruct Htim as [?|(t & _ & _ & _ & ?)]; [done|congruence]. }
    unfold Inv, dispatch. rewrite restartGame_eq. cbn. rewrite Hnil.
    split_and!; [split; [intros [? [=]]|done] | done | by left | done].
  - injection Hstep as <-. done.
Qed.

Lemma Inv_run es : forall w w', Inv w -> run w es = Some w' -> Inv w'.
Proof.
  induction es as [|e es IH]; intros w w' HI; cbn.
  - by intros [= <-].
  - destruct (step w e) as [w1|] eqn:Hstep; [|done].
    intros Hrun. eapply IH; [|exact Hrun]. by eapply Inv_step.
Qed.

Lemma reachable_Inv w : reachable w -> Inv w.
Proof. intros [es Hes]. eapply Inv_run; [apply Inv_initial|exact Hes]. Qed.

Lemma run_app es1 : forall es2 w,
  run w (es1 ++ es2) = w1 ← run w es1; run w1 es2.
Proof.
  induction es1 as [|e es1 IH]; intros es2 w; cbn; [done|].
  destruct (step w e); cbn; [apply IH|done].
Qed.

Lemma reachable_run w es w' : reachable w -> run w es = Some w' -> reachable w'.
Proof.
  intros [es0 H0] H. exists (es0 ++ es). rewrite run_app, H0. exact H.
Qed.

(** In a session a timer fires for the question on screen: its callback
    is the advance operation on the live state. *)
Lemma TimerFires_advance w i w' :
  Inv w -> step w (TimerFires i) = Some w' ->
  store w' = finalState (advance (store w)) /\ timers w' = [].
Proof.
  intros (_ & _ & Htim & _) Hstep.
  apply step_TimerFires_inv in Hstep as (t & Ht & _ & ->).
  destruct Htim as [Hnil|(t0 & Ht0 & Hcap & _)].
  { rewrite Hnil in Ht. done. }
  rewrite Ht0 in Ht. destruct i as [|i]; [|done]. injection Ht as <-.
  unfold dispatch, advance. cbn. rewrite Hcap, Ht0. cbn.
  split; [done|].
  unfold handleNextQuestion. case_decide; reflexivity.
Qed.

Lemma Awaiting_step t w e w' :
  Awaiting t w -> isTimerFires e = false -> step w e = Some w' ->
  Awaiting t w' /\ clock w <= clock w'.
Proof.
  intros (Ht & Hbusy & Hnf & Hidx) He Hstep.
  destruct e as [opt|i|i r| |dt]; [| done | | |].
  - apply step_Click_inv in Hstep as (_ & q & _ & _ & ->).
    unfold Awaiting, dispatch. rewrite handleAnswerClick_guard by done. cbn.
    rewrite app_nil_r. done.
  - apply step_Settles_inv in Hstep as (req & _ & ->).
    unfold Awaiting, dispatch. rewrite generateFacts_settled_eq.
    destruct r; cbn; rewrite app_nil_r; done.
  - apply step_PlayAgain_inv in Hstep as (Hf & _). congruence.
  - injection Hstep as <-. unfold Awaiting. cbn. split; [done|lia].
Qed.

Lemma Awaiting_run t es : forall w w',
  Awaiting t w -> forallb (negb ∘ isTimerFires) es = true ->
  run w es = Some w' ->
  Awaiting t w' /\ clock w <= clock w'.
Proof.
  induction es as [|e es IH]; intros w w' HA Hes; cbn.
  - intros [= <-]. done.
  - cbn in Hes. apply andb_prop in Hes as [He Hes].
    apply negb_true_iff in He.
    destruct (step w e) as [w1|] eqn:Hstep; [|done]. intros Hrun.
    destruct (Awaiting_step _ _ _ _ HA He Hstep) as [HA1 Hc1].
    destruct (IH _ _ HA1 Hes Hrun) as [HA2 Hc2]. split; [done|lia].
Qed.

(** While the session is finished nothing but "Play Again" touches the
    score. *)
Lemma finished_step w e w' :
  isFinished (store w) = true -> isPlayAgain e = false ->
  step w e = Some w' ->
  score (store w') = score (store w) /\ isFinished (store w') = true.
Proof.
  intros Hf He Hstep. destruct e as [opt|i|i r| |dt]; [| | | done |].
  - apply step_Click_inv in Hstep as (Hnf & _). congruence.
  - apply step_TimerFires_inv in Hstep as (t & _ & _ & ->).
    unfold dispatch, handleNextQuestion. cbn. case_decide; done.
  - apply step_Settles_inv in Hstep as (req & _ & ->).
    unfold dispatch. rewrite generateFacts_settled_eq. done.
  - injection Hstep as <-. done.
Qed.

Lemma finished_run es : forall w w',
  isFinished (store w) = true -> forallb (negb ∘ isPlayAgain) es = true ->
  run w es = Some w' ->
  score (store w') = score (store w) /\ isFinished (store w') = true.
Proof.
  induction es as [|e es IH]; intros w w' Hf Hes; cbn.
  - intros [= <-]. done.
  - cbn in Hes. apply andb_prop in Hes as [He Hes].
    apply negb_true_iff in He.
    destruct (step w e) as [w1|] eqn:Hstep; [|done]. intros Hrun.
    destruct (finished_step _ _ _ Hf He Hstep) as [Hs1 Hf1].
    destruct (IH _ _ Hf1 Hes Hrun) as [Hs2 Hf2]. split; [congruence|done].
Qed.

(** ** The properties of the specification *)

(** C1: while the evaluation is pending, selecting the option equal to
    [correctAnswer] makes the evaluation [CORRECT] and adds exactly 1 to the
    score; selecting any other option makes it [INCORRECT] and leaves the
    score as it was; either way the clicked option is recorded in
    [selectedAnswer]. This holds for every question (whatever the index on
    screen) and every option. *)
Theorem select_evaluates (s : State) (q : Question) (opt : string) :
  currentQuestion s = Some q ->
  answerState s = IDLE ->
  completion (select opt s) = Normal tt /\
  selectedAnswer (finalState (select opt s)) = Some opt /\
  (opt = correctAnswer q ->
     answerState (finalState (select opt s)) = CORRECT /\
     score (finalState (select opt s)) = score s + 1) /\
  (opt <> correctAnswer q ->
     answerState (finalState (select opt s)) = INCORRECT /\
     score (finalState (select opt s)) = score s).
Proof.
  intros Hq Hidle. unfold select.
  destruct (decide (opt = correctAnswer q)) as [Heq|Hne].
  - rewrite (handleAnswerClick_correct _ _ _ q) by done.
    destruct clientReady; cbn; (split_and!; [done|done|done|congruence]).
  - rewrite (handleAnswerClick_incorrect _ _ _ q) by done. cbn.
    split_and!; [done|done|congruence|done].
Qed.

(** C3: once the evaluation is not pending, a selection event changes no
    field of the session state and hands nothing to the host, for any
    option; hence any number of such events in a row leaves the state as it
    was. *)
Theorem select_guard (s : State) (opt : string) (opts : list string) :
  answerState s <> IDLE ->
  select opt s = (Normal tt, s, []) /\
  selectMany opts s = s.
Proof.
  intros Hbusy. split.
  - unfold select. by apply handleAnswerClick_guard.
  - induction opts as [|o opts IH]; [done|]. cbn.
    unfold select at 2. rewrite handleAnswerClick_guard by done. exact IH.
Qed.

(** C4: the advance operation. If [currentQuestionIndex + 1] is below the
    number of questions it moves to that index, clears [selectedAnswer],
    makes the evaluation pending and clears [facts], and changes nothing
    else; otherwise it sets [isFinished] and changes no other field. The
    score is the same after it in both branches. In a session the timer
    callback is this operation on the live state, and once a session is
    finished the score stays as it is (and the session stays finished, with
    selections still guarded) along every run without a restart. *)
Theorem advance_operation (s : State) :
  (currentQuestionIndex s + 1 < length FLAG_QUESTIONS ->
     advance s =
       (Normal tt,
        {| currentQuestionIndex := currentQuestionIndex s + 1;
           score := score s;
           selectedAnswer := None;
           answerState := IDLE;
           isFinished := isFinished s;
           facts := None;
           isLoadingFacts := isLoadingFacts s |},
        [])) /\
  (~ currentQuestionIndex s + 1 < length FLAG_QUESTIONS ->
     advance s =
       (Normal tt,
        {| currentQuestionIndex := currentQuestionIndex s;
           score := score s;
           selectedAnswer := selectedAnswer s;
           answerState := answerState s;
           isFinished := true;
           facts := facts s;
           isLoadingFacts := isLoadingFacts s |},
        [])) /\
  score (finalState (advance s)) = score s /\
  (forall w i w',
     reachable w -> step w (TimerFires i) = Some w' ->
     store w' = finalState (advance (store w))) /\
  (forall w es w',
     reachable w -> isFinished (store w) = true ->
     forallb (negb ∘ isPlayAgain) es = true ->
     run w es = Some w' ->
     score (store w') = score (store w) /\
     isFinished (store w') = true /\
     answerState (store w') <> IDLE).
Proof.
  split_and!.
  - intros H. by apply handleNextQuestion_next.
  - intros H. by apply handleNextQuestion_last.
  - unfold advance, handleNextQuestion. case_decide; reflexivity.
  - intros w i w' Hr Hstep.
    by destruct (TimerFires_advance w i w' (reachable_Inv w Hr) Hstep).
  - intros w es w' Hr Hf Hes Hrun.
    destruct (finished_run es w w' Hf Hes Hrun) as [Hs Hf'].
    split_and!; [done|done|].
    pose proof (reachable_Inv w' (reachable_run w es w' Hr Hrun)) as (_ & H & _).
    by apply H.
Qed.

(** C5 (as amended): the restart operation sets [currentQuestionIndex] and
    [score] to 0, clears [selectedAnswer] and [facts], makes the evaluation
    pending and [isFinished] false, and leaves [isLoadingFacts] as it was;
    so its result is the initial session state exactly when no request was
    loading. *)
Theorem restartGame_resets (s : State) :
  restartGame s =
    (Normal tt,
     {| currentQuestionIndex := 0;
        score := 0;
        selectedAnswer := None;
        answerState := IDLE;
        isFinished := false;
        facts := None;
        isLoadingFacts := isLoadingFacts s |},
     []) /\
  (finalState (restartGame s) = initialState <-> isLoadingFacts s = false).
Proof.
  split; [apply restartGame_eq|].
  rewrite restartGame_eq. unfold initialState. cbn. split.
  - by intros [= ->].
  - by intros ->.
Qed.

(** C6: on entry the request for fun facts sets [isLoadingFacts] and clears
    [facts]; then, for every outcome of the external call, [facts] is the
    returned text on success and exactly the fallback sentence on any
    failure, the handler completes normally (no error propagates), and
    [isLoadingFacts] is false. A failure is either an exception before the
    [await] (the client cannot be constructed: the [catch] and [finally]
    blocks run at once, from the state the entry left, and no call is
    issued) or a rejection of the awaited call. When the client is
    constructed, the entry state is what the click handler leaves and one
    call is issued. *)
Theorem generateFacts_contract (countryName : string) (r : Response)
    (s s' : State) :
  (newGoogleGenAI = Normal tt ->
   completion (generateFacts countryName s) = Normal tt /\
   isLoadingFacts (finalState (generateFacts countryName s)) = true /\
   facts (finalState (generateFacts countryName s)) = None /\
   effects (generateFacts countryName s) =
     [GenerateContent "gemini-2.5-flash" (factsPrompt countryName)]) /\
  (newGoogleGenAI = Throw ->
   generateFacts countryName s =
     generateFacts_settled Rejected
       {| currentQuestionIndex := currentQuestionIndex s;
          score := score s;
          selectedAnswer := selectedAnswer s;
          answerState := answerState s;
          isFinished := isFinished s;
          facts := None;
          isLoadingFacts := true |} /\
   completion (generateFacts countryName s) = Normal tt /\
   facts (finalState (generateFacts countryName s)) =
     Some "Sorry, I couldn't fetch any fun facts right now." /\
   isLoadingFacts (finalState (generateFacts countryName s)) = false /\
   effects (generateFacts countryName s) =
     [ConsoleError "Error generating facts:"]) /\
  (completion (generateFacts_settled r s') = Normal tt /\
   facts (finalState (generateFacts_settled r s')) =
     Some (match r with
           | Fulfilled text => text
           | Rejected => "Sorry, I couldn't fetch any fun facts right now."
           end) /\
   isLoadingFacts (finalState (generateFacts_settled r s')) = false).
Proof.
  split; [|split].
  - intros Hc. unfold generateFacts. rewrite Hc. by split_and!.
  - intros Hc. unfold generateFacts. rewrite Hc.
    split; [reflexivity|]. split; [reflexivity|]. split; [reflexivity|].
    split; reflexivity.
  - rewrite generateFacts_settled_eq. by split_and!.
Qed.

(** C2 (as amended): a response is applied whenever it arrives, whether or
    not the question index has moved on since its request was issued: for
    every request in flight and every outcome the response sets [facts] to
    the returned text (the fallback sentence on failure) and
    [isLoadingFacts] to false for the question now on screen, and leaves
    the index, the score, the selected answer, the evaluation and
    [isFinished] alone. *)
Theorem late_response_applied (w : World) (i : nat) (req : Request)
    (r : Response) :
  inflight w !! i = Some req ->
  exists w',
    step w (Settles i r) = Some w' /\
    facts (store w') =
      Some (match r with
            | Fulfilled text => text
            | Rejected => factsFallback
            end) /\
    isLoadingFacts (store w') = false /\
    currentQuestionIndex (store w') = currentQuestionIndex (store w) /\
    score (store w') = score (store w) /\
    selectedAnswer (store w') = selectedAnswer (store w) /\
    answerState (store w') = answerState (store w) /\
    isFinished (store w') = isFinished (store w).
Proof.
  intros Hreq. cbn. rewrite Hreq. eexists. split; [reflexivity|].
  unfold dispatch. rewrite generateFacts_settled_eq. cbn. by split_and!.
Qed.

(** C7: in every world of a session [selectedAnswer] is set exactly when the
    evaluation is not pending, and each operation keeps it so: a selection
    (on a state that shows a question), the advance (whatever index its
    callback closed over) and the restart. *)
Theorem selectedAnswer_iff_evaluated :
  (forall w, reachable w ->
     (is_Some (selectedAnswer (store w)) <-> answerState (store w) <> IDLE)) /\
  (forall s,
     (is_Some (selectedAnswer s) <-> answerState s <> IDLE) ->
     (forall opt, is_Some (currentQuestion s) ->
        is_Some (selectedAnswer (finalState (select opt s))) <->
        answerState (finalState (select opt s)) <> IDLE) /\
     (forall idx,
        is_Some (selectedAnswer (finalState (handleNextQuestion idx s))) <->
        answerState (finalState (handleNextQuestion idx s)) <> IDLE) /\
     (is_Some (selectedAnswer (finalState (restartGame s))) <->
      answerState (finalState (restartGame s)) <> IDLE)).
Proof.
  split.
  - intros w Hr. by destruct (reachable_Inv w Hr) as (H & _).
  - intros s Hs. split_and!.
    + intros opt [q Hq]. unfold select.
      destruct (decide (answerState s = IDLE)) as [Hidle|Hbusy].
      * destruct (decide (opt = correctAnswer q)) as [Heq|Hne].
        -- rewrite (handleAnswerClick_correct _ _ _ q) by done.
           destruct clientReady; cbn; (split; [done|eauto]).
        -- rewrite (handleAnswerClick_incorrect _ _ _ q) by done. cbn.
           split; [done|eauto].
      * rewrite handleAnswerClick_guard by done. exact Hs.
    + intros idx. unfold handleNextQuestion. case_decide; cbn.
      * split; [intros [? [=]]|done].
      * exact Hs.
    + rewrite restartGame_eq. cbn. split; [intros [? [=]]|done].
Qed.

(** C8: a selection made while the evaluation is pending schedules exactly
    one automatic advance, 3500 time units later if the option is the
    correct answer and 1500 otherwise. Until it fires that timer stays the
    only one; it can fire only once the delay has elapsed, and from then on
    it can; when it fires it performs the advance operation and no timer
    is left, so it fires once per answered question. *)
Theorem automatic_advance_scheduled_once (w : World) (q : Question)
    (opt : string) :
  reachable w ->
  isFinished (store w) = false ->
  answerState (store w) = IDLE ->
  currentQuestion (store w) = Some q ->
  opt ∈ options q ->
  advanceDelay opt q = (if decide (opt = correctAnswer q) then 3500 else 1500) /\
  delaysOf (effects (select opt (store w))) = [advanceDelay opt q] /\
  exists w1,
    step w (Click opt) = Some w1 /\
    timers w1 = [{| due := clock w + advanceDelay opt q;
                    capturedIndex := currentQuestionIndex (store w) |}] /\
    forall es w2,
      forallb (negb ∘ isTimerFires) es = true ->
      run w1 es = Some w2 ->
      timers w2 = timers w1 /\
      (forall i, is_Some (step w2 (TimerFires i)) <->
                 i = 0 /\ clock w + advanceDelay opt q <= clock w2) /\
      (forall w3, step w2 (TimerFires 0) = Some w3 ->
                  store w3 = finalState (advance (store w2)) /\
                  timers w3 = [] /\
                  forall i, step w3 (TimerFires i) = None).
Proof.
  intros Hr Hnf Hidle Hq Hopt.
  pose proof (reachable_Inv w Hr) as HI.
  assert (timers w = []) as Hnil.
  { destruct HI as (_ & _ & [?|(t & _ & _ & ? & _)] & _); [done|congruence]. }
  set (t := {| due := clock w + advanceDelay opt q;
               capturedIndex := currentQuestionIndex (store w) |}).
  assert (step w (Click opt) =
          Some (dispatch (handleAnswerClick (store w) opt) w)) as Hstep.
  { cbn. rewrite Hnf, Hq. by rewrite bool_decide_eq_true_2. }
  assert (delaysOf (effects (select opt (store w))) = [advanceDelay opt q] /\
          timers (dispatch (handleAnswerClick (store w) opt) w) = [t] /\
          Awaiting t (dispatch (handleAnswerClick (store w) opt) w))
    as (Hdelays & Htimers & HA).
  { unfold Awaiting, dispatch, select. subst t.
    destruct (decide (opt = correctAnswer q)) as [Heq|Hne].
    - assert (advanceDelay opt q = 3500) as ->.
      { unfold advanceDelay. by rewrite Heq, String.eqb_refl. }
      rewrite (handleAnswerClick_correct _ _ _ q) by done.
      destruct clientReady; cbn; rewrite Hnil; by split_and!.
    - assert (advanceDelay opt q = 1500) as ->.
      { unfold advanceDelay. apply String.eqb_neq in Hne. by rewrite Hne. }
      rewrite (handleAnswerClick_incorrect _ _ _ q) by done. cbn.
      rewrite Hnil. by split_and!. }
  split_and!.
  - unfold advanceDelay. case_decide as Hd.
    + by rewrite Hd, String.eqb_refl.
    + apply String.eqb_neq in Hd. by rewrite Hd.
  - exact Hdelays.
  - eexists. split_and!; [exact Hstep | exact Htimers |].
    intros es w2 Hes Hrun.
    destruct (Awaiting_run t es _ w2 HA Hes Hrun) as [(Ht2 & Hb2 & Hf2 & Hi2) Hclock].
    assert (Inv w2) as HI2.
    { apply reachable_Inv. eapply reachable_run; [|exact Hrun].
      eapply reachable_run with (es := [Click opt]); [exact Hr|].
      cbn [run]. by rewrite Hstep. }
    split_and!.
    + by rewrite Ht2, Htimers.
    + intros i. cbn [step]. rewrite Ht2. destruct i as [|i]; cbn.
      * case_decide as Hd; split.
        -- intros _. split; [done|]. unfold dispatch in Hclock. cbn in Hclock. lia.
        -- eauto.
        -- intros [? [=]].
        -- intros [_ Hle]. unfold dispatch in Hclock. cbn in Hclock. lia.
      * split; [intros [? [=]]|intros [[=] _]].
    + intros w3 Hfire.
      destruct (TimerFires_advance w2 0 w3 HI2 Hfire) as [Hs3 Ht3].
      split_and!; [done|done|]. intros i. cbn [step]. by rewrite Ht3.
Qed.

(** C9: the class of an option button is a function of the evaluation, the
    option, the selected answer and the correct answer alone, with the
    cases tried in this order: pending gives the neutral class; otherwise
    the correct answer gets the "correct" class whatever was selected;
    otherwise the selected option gets the "incorrect" class; otherwise the
    muted class. The four classes are pairwise different strings. *)
Theorem getButtonClass_cases (s : State) (q : Question) (opt : string) :
  currentQuestion s = Some q ->
  getButtonClass s opt =
    Normal (classOf (visualCategory (answerState s) opt (selectedAnswer s)
                       (correctAnswer q))) /\
  (answerState s = IDLE -> getButtonClass s opt = Normal classNeutral) /\
  (answerState s <> IDLE -> opt = correctAnswer q ->
     getButtonClass s opt = Normal classCorrect) /\
  (answerState s <> IDLE -> opt <> correctAnswer q ->
     selectedAnswer s = Some opt ->
     getButtonClass s opt = Normal classIncorrect) /\
  (answerState s <> IDLE -> opt <> correctAnswer q ->
     selectedAnswer s <> Some opt ->
     getButtonClass s opt = Normal classMuted) /\
  (forall c1 c2, classOf c1 = classOf c2 -> c1 = c2).
Proof.
  intros Hq.
  assert (forall sel, strictEqNullable opt sel = bool_decide (sel = Some opt)) as Hsel.
  { intros [a|]; cbn; [|done].
    destruct (String.eqb_spec opt a) as [->|Hne].
    - by rewrite bool_decide_eq_true_2.
    - rewrite bool_decide_eq_false_2; [done|]. intros [=]. done. }
  assert (getButtonClass s opt =
          Normal (classOf (visualCategory (answerState s) opt
                             (selectedAnswer s) (correctAnswer q)))) as Hmain.
  { unfold getButtonClass, visualCategory. rewrite Hq, Hsel.
    destruct (decide (answerState s = IDLE)); [done|].
    destruct (String.eqb_spec opt (correctAnswer q)) as [Heq|Hne].
    - by rewrite decide_True.
    - rewrite (decide_False (P := opt = correctAnswer q)) by done.
      case_bool_decide as Hs; cbn.
      + by rewrite decide_True.
      + rewrite decide_False; [done|]. intros [? _]. done. }
  split_and!; [exact Hmain | | | | |].
  - intros H. rewrite Hmain. unfold visualCategory. by rewrite decide_True.
  - intros H1 H2. rewrite Hmain. unfold visualCategory.
    rewrite decide_False by done. by rewrite decide_True.
  - intros H1 H2 H3. rewrite Hmain. unfold visualCategory.
    rewrite decide_False by done. rewrite decide_False by done.
    by rewrite decide_True.
  - intros H1 H2 H3. rewrite Hmain. unfold visualCategory.
    rewrite decide_False by done. rewrite decide_False by done.
    rewrite decide_False; [done|]. intros [? _]. done.
  - intros [] []; cbv; congruence.
Qed.

(** C10: with at least one question, in every world of a session
    [currentQuestionIndex] is strictly below the number of questions, so a
    current question exists; at the last question the advance operation
    sets [isFinished] and leaves the index where it is. *)
Theorem currentQuestionIndex_in_range :
  0 < length FLAG_QUESTIONS ->
  (forall w, reachable w ->
     currentQuestionIndex (store w) < length FLAG_QUESTIONS /\
     is_Some (currentQuestion (store w))) /\
  (forall s, ~ currentQuestionIndex s + 1 < length FLAG_QUESTIONS ->
     currentQuestionIndex (finalState (advance s)) = currentQuestionIndex s /\
     isFinished (finalState (advance s)) = true).
Proof.
  intros Hne. split.
  - intros w Hr. destruct (reachable_Inv w Hr) as (_ & _ & _ & H).
    specialize (H Hne). split; [exact H|].
    unfold currentQuestion. by apply lookup_lt_is_Some_2.
  - intros s Hlast. unfold advance.
    rewrite handleNextQuestion_last by done. done.
Qed.

(** ** More of the session *)

Lemma step_Click_enabled w q opt :
  isFinished (store w) = false ->
  currentQuestion (store w) = Some q ->
  opt ∈ options q ->
  step w (Click opt) = Some (dispatch (handleAnswerClick (store w) opt) w).
Proof.
  intros Hnf Hq Hopt. cbn. rewrite Hnf, Hq. by rewrite bool_decide_eq_true_2.
Qed.

Lemma SessionInv_initial : SessionInv initialWorld.
Proof.
  unfold SessionInv; cbn. split_and!; [lia | done | done | constructor].
Qed.

Lemma SessionInv_step w e w' :
  Inv w -> SessionInv w -> step w e = Some w' -> SessionInv w'.
Proof.
  intros (_ & _ & Htim & _) (Hscore & Hsel & Hload & Hreq) Hstep.
  destruct e as [opt|i|i r| |dt].
  - apply step_Click_inv in Hstep as (Hnf & q & Hq & Hopt & ->).
    destruct (decide (answerState (store w) = IDLE)) as [Hidle|Hbusy].
    + rewrite Hidle in Hscore. cbn in Hscore.
      unfold SessionInv, dispatch.
      destruct (decide (opt = correctAnswer q)) as [Heq|Hne].
      * rewrite (handleAnswerClick_correct _ _ _ q) by done.
        destruct clientReady; cbn; rewrite ?app_nil_r; split_and!.
        all: try (repeat case_decide; try done; lia).
        all: try (intros _; exists q, opt; by split_and!).
        all: try done.
        -- intros _. by destruct (inflight w).
        -- apply Forall_app. split; [done|]. constructor; [|constructor].
           exists q. done.
      * rewrite (handleAnswerClick_incorrect _ _ _ q) by done. cbn.
        rewrite app_nil_r. split_and!.
        -- repeat case_decide; try done; lia.
        -- intros _. exists q, opt. split_and!; [done|done|done|]. by split.
        -- done.
        -- done.
    + unfold SessionInv, dispatch. rewrite handleAnswerClick_guard by done.
      cbn. rewrite app_nil_r. done.
  - apply step_TimerFires_inv in Hstep as (t & Ht & _ & ->).
    destruct Htim as [Hnil|(t0 & Ht0 & Hcap & Hbusy & Hnf)].
    { rewrite Hnil in Ht. done. }
    rewrite Ht0 in Ht. destruct i as [|i]; [|done]. injection Ht as <-.
    unfold SessionInv, dispatch.
    destruct (decide (capturedIndex t0 + 1 < length FLAG_QUESTIONS)) as [Hlt|Hge].
    + rewrite handleNextQuestion_next by done. cbn. rewrite app_nil_r.
      split_and!; [|done|done|done].
      rewrite Hcap. repeat case_decide; try done; lia.
    + rewrite handleNextQuestion_last by done. cbn. rewrite app_nil_r. done.
  - apply step_Settles_inv in Hstep as (req & _ & ->).
    unfold SessionInv, dispatch. rewrite generateFacts_settled_eq.
    destruct r; cbn; rewrite app_nil_r;
      (split_and!; [done|done|done|by apply Forall_delete]).
  - apply step_PlayAgain_inv in Hstep as (Hf & ->).
    unfold SessionInv, dispatch. rewrite restartGame_eq. cbn.
    rewrite app_nil_r. split_and!; [repeat case_decide; try done; lia|done|done|done].
  - injection Hstep as <-. done.
Qed.

Lemma SessionInv_run es : forall w w',
  Inv w -> SessionInv w -> run w es = Some w' -> SessionInv w'.
Proof.
  induction es as [|e es IH]; intros w w' HI HS; cbn.
  - by intros [= <-].
  - destruct (step w e) as [w1|] eqn:Hstep; [|done].
    intros Hrun. eapply IH; [| |exact Hrun].
    + by eapply Inv_step.
    + by eapply SessionInv_step.
Qed.

Lemma reachable_SessionInv w : reachable w -> SessionInv w.
Proof.
  intros [es Hes].
  eapply SessionInv_run; [apply Inv_initial|apply SessionInv_initial|exact Hes].
Qed.

(** X1: in every world of a session the score counts at most the questions
    before the one on screen, plus that one once it is evaluated [CORRECT];
    so with at least one question it never exceeds the number of
    questions. *)
Theorem score_bounded (w : World) :
  0 < length FLAG_QUESTIONS ->
  reachable w ->
  score (store w)
    <= currentQuestionIndex (store w)
       + (if decide (answerState (store w) = CORRECT) then 1 else 0) /\
  score (store w) <= length FLAG_QUESTIONS.
Proof.
  intros Hne Hr.
  destruct (reachable_Inv w Hr) as (_ & _ & _ & Hidx).
  destruct (reachable_SessionInv w Hr) as (Hscore & _).
  specialize (Hidx Hne). split; [exact Hscore|].
  case_decide; lia.
Qed.

(** X2: in every world of a session an evaluation is the evaluation of the
    selected option against the question on screen: the selected answer is
    one of that question's options, the state is [CORRECT] exactly when it
    is the correct answer and [INCORRECT] exactly when it is not. *)
Theorem evaluation_matches_selection (w : World) :
  reachable w ->
  answerState (store w) <> IDLE ->
  exists q a,
    currentQuestion (store w) = Some q /\
    selectedAnswer (store w) = Some a /\
    a ∈ options q /\
    (answerState (store w) = CORRECT <-> a = correctAnswer q) /\
    (answerState (store w) = INCORRECT <-> a <> correctAnswer q).
Proof.
  intros Hr Hbusy.
  destruct (reachable_SessionInv w Hr) as (_ & Hsel & _).
  destruct (Hsel Hbusy) as (q & a & Hq & Ha & Hin & Hiff).
  exists q, a. split_and!; [done|done|done|done|].
  destruct (answerState (store w)); [done| |].
  - split; [done|]. intros Hne. by destruct Hne, Hiff as [-> _].
  - split; [|done]. intros _ Heq. by apply Hiff in Heq.
Qed.

(** X3: in every world of a session the loading flag is set only while a
    request is in flight. *)
Theorem loading_means_in_flight (w : World) :
  reachable w ->
  isLoadingFacts (store w) = true ->
  inflight w <> [].
Proof.
  intros Hr. by destruct (reachable_SessionInv w Hr) as (_ & _ & Hload & _).
Qed.

(** X4: every request in flight was issued under the index of a question
    of the list, and its prompt is the prompt for that question's correct
    answer. *)
Theorem requests_ask_about_correct_answer (w : World) (i : nat)
    (req : Request) :
  reachable w ->
  inflight w !! i = Some req ->
  exists q,
    FLAG_QUESTIONS !! issuedAt req = Some q /\
    prompt req = factsPrompt (correctAnswer q).
Proof.
  intros Hr Hreq.
  destruct (reachable_SessionInv w Hr) as (_ & _ & _ & Hall).
  rewrite Forall_lookup in Hall. by apply (Hall i).
Qed.

(** X5: a selection calls the text-generation service at most once. It
    calls it once, with the prompt for the correct answer, when the
    evaluation is pending, the option is the correct answer and the client
    can be constructed; in every other case (a wrong option, an evaluation
    that is not pending, a constructor that throws) it does not call
    it. *)
Theorem requests_per_selection (s : State) (q : Question) (opt : string)
    (index : nat) :
  currentQuestion s = Some q ->
  requestsOf index (effects (select opt s)) =
    if decide (answerState s = IDLE /\ opt = correctAnswer q /\
               newGoogleGenAI = Normal tt)
    then [{| issuedAt := index; prompt := factsPrompt (correctAnswer q) |}]
    else [].
Proof.
  intros Hq. unfold select.
  destruct (decide (answerState s = IDLE)) as [Hidle|Hbusy].
  - destruct (decide (opt = correctAnswer q)) as [Heq|Hne].
    + rewrite (handleAnswerClick_correct _ _ _ q) by done.
      unfold clientReady. destruct newGoogleGenAI as [[]|].
      * by rewrite decide_True.
      * rewrite decide_False; [done|]. by intros (_ & _ & ?).
    + rewrite (handleAnswerClick_incorrect _ _ _ q) by done.
      rewrite decide_False; [done|]. by intros (_ & ? & _).
  - rewrite handleAnswerClick_guard by done.
    rewrite decide_False; [done|]. by intros [? _].
Qed.

(** X6: in every world of a session at most one automatic advance is
    pending; one is pending only while the question on screen is evaluated
    and the session is not finished, and its callback closed over the
    index on screen. *)
Theorem at_most_one_timer (w : World) :
  reachable w ->
  length (timers w) <= 1 /\
  (timers w <> [] ->
   answerState (store w) <> IDLE /\ isFinished (store w) = false) /\
  (forall i t, timers w !! i = Some t ->
     capturedIndex t = currentQuestionIndex (store w)).
Proof.
  intros Hr.
  destruct (reachable_Inv w Hr) as (_ & _ & [Hnil|(t0 & Ht0 & Hcap & Hb & Hnf)] & _).
  - rewrite Hnil. cbn. split_and!; [lia|done|]. by intros i t.
  - rewrite Ht0. cbn. split_and!; [lia|done|].
    intros [|i] t; cbn; [by intros [= <-]|done].
Qed.

(** One answered question: the click, the wait, the timer. *)
Lemma answer_round w q a :
  isFinished (store w) = false ->
  answerState (store w) = IDLE ->
  timers w = [] ->
  currentQuestion (store w) = Some q ->
  a ∈ options q ->
  exists w1,
    run w (answerEvents q a) = Some w1 /\
    timers w1 = [] /\
    store w1 =
      finalState (handleNextQuestion (currentQuestionIndex (store w))
                    (finalState (select a (store w)))).
Proof.
  intros Hnf Hidle Hnil Hq Ha. unfold answerEvents, select. cbn [run].
  rewrite (step_Click_enabled w q a) by done. unfold dispatch.
  destruct (decide (a = correctAnswer q)) as [Heq|Hne].
  - rewrite (handleAnswerClick_correct _ _ _ q) by done.
    rewrite Heq, String.eqb_refl, Hnil.
    destruct clientReady; cbn; rewrite decide_True by lia;
      (eexists; split; [reflexivity|]; cbn; split; [|reflexivity];
       unfold handleNextQuestion; case_decide; reflexivity).
  - rewrite (handleAnswerClick_incorrect _ _ _ q) by done.
    pose proof Hne as Hneb. apply String.eqb_neq in Hneb.
    rewrite Hneb, Hnil. cbn.
    rewrite decide_True by lia. eexists. split; [reflexivity|]. cbn.
    split; [|reflexivity].
    unfold handleNextQuestion. case_decide; reflexivity.
Qed.

Lemma select_pending_fields s q a :
  answerState s = IDLE ->
  currentQuestion s = Some q ->
  score (finalState (select a s)) =
    score s + (if String.eqb a (correctAnswer q) then 1 else 0) /\
  isFinished (finalState (select a s)) = isFinished s /\
  currentQuestionIndex (finalState (select a s)) = currentQuestionIndex s.
Proof.
  intros Hidle Hq. unfold select.
  destruct (decide (a = correctAnswer q)) as [Heq|Hne].
  - rewrite (handleAnswerClick_correct _ _ _ q) by done.
    rewrite Heq, String.eqb_refl. done.
  - rewrite (handleAnswerClick_incorrect _ _ _ q) by done.
    apply String.eqb_neq in Hne. rewrite Hne. cbn. split_and!; [lia|done|done].
Qed.

(** Answering the questions [post] that are left, from a world that shows
    the first of them. *)
Lemma playthrough_from post : forall pre answers w,
  FLAG_QUESTIONS = pre ++ post ->
  post <> [] ->
  Forall2 (fun q a => a ∈ options q) post answers ->
  currentQuestionIndex (store w) = length pre ->
  answerState (store w) = IDLE ->
  isFinished (store w) = false ->
  timers w = [] ->
  exists w',
    run w (playthrough post answers) = Some w' /\
    isFinished (store w') = true /\
    score (store w') = score (store w) + correctCount post answers /\
    timers w' = [].
Proof.
  induction post as [|q post IH]; intros pre answers w HQ Hne Hall Hidx Hidle Hnf Hnil;
    [done|].
  apply Forall2_cons_inv_l in Hall as (a & answers' & Ha & Hall & ->).
  assert (currentQuestion (store w) = Some q) as Hq.
  { unfold currentQuestion. rewrite Hidx, HQ. by apply list_lookup_middle. }
  destruct (answer_round w q a Hnf Hidle Hnil Hq Ha) as (w1 & Hrun1 & Ht1 & Hs1).
  destruct (select_pending_fields (store w) q a Hidle Hq) as (Hsc & Hfin & Hix).
  cbn [playthrough correctCount]. rewrite run_app, Hrun1. cbn.
  destruct post as [|q' post'].
  - apply Forall2_nil_inv_l in Hall as ->. cbn.
    rewrite handleNextQuestion_last in Hs1.
    2:{ rewrite Hidx, HQ, length_app. cbn. lia. }
    exists w1. rewrite Hs1. cbn. split_and!; [done|done|lia|done].
  - rewrite handleNextQuestion_next in Hs1.
    2:{ rewrite Hidx, HQ, length_app. cbn. lia. }
    destruct (IH (pre ++ [q]) answers' w1) as (w' & Hrun & Hf & Hs & Ht).
    + by rewrite <- app_assoc.
    + done.
    + done.
    + rewrite Hs1, length_app. cbn. lia.
    + by rewrite Hs1.
    + rewrite Hs1. cbn. congruence.
    + done.
    + exists w'. split_and!; [done|done| |done].
      rewrite Hs, Hs1. cbn. lia.
Qed.

(** X7: a playthrough. When every question is answered in turn with one
    of its options, each click followed by the wait for its timer and by
    the timer, the session ends finished, with no timer left, and the
    final score is the number of questions answered with their correct
    answer. *)
Theorem playthrough_score (answers : list string) :
  FLAG_QUESTIONS <> [] ->
  Forall2 (fun q a => a ∈ options q) FLAG_QUESTIONS answers ->
  exists w,
    run initialWorld (playthrough FLAG_QUESTIONS answers) = Some w /\
    isFinished (store w) = true /\
    score (store w) = correctCount FLAG_QUESTIONS answers /\
    timers w = [].
Proof.
  intros Hne Hall.
  destruct (playthrough_from FLAG_QUESTIONS [] answers initialWorld)
    as (w & Hrun & Hf & Hs & Ht); try done.
  exists w. by split_and!.
Qed.

(** X8: playing again. From every finished world of a session, "Play
    Again" followed by a playthrough ends finished with the number of
    correct answers of that playthrough as the score: nothing of the
    earlier score is carried over. *)
Theorem replay_score (w : World) (answers : list string) :
  FLAG_QUESTIONS <> [] ->
  reachable w ->
  isFinished (store w) = true ->
  Forall2 (fun q a => a ∈ options q) FLAG_QUESTIONS answers ->
  exists w',
    run w (PlayAgain :: playthrough FLAG_QUESTIONS answers) = Some w' /\
    isFinished (store w') = true /\
    score (store w') = correctCount FLAG_QUESTIONS answers /\
    timers w' = [].
Proof.
  intros Hne Hr Hf Hall.
  assert (timers w = []) as Hnil.
  { destruct (reachable_Inv w Hr) as (_ & _ & [?|(t & _ & _ & _ & ?)] & _);
      [done|congruence]. }
  cbn [run step]. rewrite Hf.
  destruct (playthrough_from FLAG_QUESTIONS [] answers (dispatch restartGame w))
    as (w' & Hrun & Hf' & Hs & Ht); try done.
  { unfold dispatch. rewrite restartGame_eq. cbn. by rewrite Hnil. }
  exists w'. by split_and!.
Qed.

(** ** The rendered screen *)

Lemma strictEqNullable_decide opt sel :
  strictEqNullable opt sel = bool_decide (sel = Some opt).
Proof.
  destruct sel as [a|]; cbn; [|done].
  destruct (String.eqb_spec opt a) as [->|Hne].
  - by rewrite bool_decide_eq_true_2.
  - rewrite bool_decide_eq_false_2; [done|]. by intros [= ->].
Qed.

Lemma getButtonClass_defined s q opt :
  currentQuestion s = Some q ->
  getButtonClass s opt =
    Normal (classOf (visualCategory (answerState s) opt (selectedAnswer s)
                       (correctAnswer q))).
Proof.
  intros Hq. unfold getButtonClass, visualCategory.
  rewrite Hq, strictEqNullable_decide.
  destruct (decide (answerState s = IDLE)); [done|].
  destruct (String.eqb_spec opt (correctAnswer q)) as [Heq|Hne].
  - by rewrite decide_True.
  - rewrite (decide_False (P := opt = correctAnswer q)) by done.
    case_bool_decide as Hs; cbn.
    + by rewrite decide_True.
    + rewrite decide_False; [done|]. by intros [? _].
Qed.

Lemma mapThrowing_renderButton s q l :
  currentQuestion s = Some q ->
  mapThrowing (renderButton s) l = Normal (map (buttonOf s q) l).
Proof.
  intros Hq. induction l as [|o l IH]; [done|]. cbn.
  unfold renderButton at 1. rewrite (getButtonClass_defined s q) by done.
  by rewrite IH.
Qed.

Lemma renderGame_question s q :
  isFinished s = false ->
  currentQuestion s = Some q ->
  renderGame s =
    Normal (QuestionView (flagUrl q) (map (buttonOf s q) (options q))
              (isLoadingFacts s)
              (if truthy (facts s) && bool_decide (answerState s = CORRECT)
               then facts s else None)
              (currentQuestionIndex s + 1)
              (length FLAG_QUESTIONS)).
Proof.
  intros Hnf Hq. unfold renderGame.
  by rewrite Hnf, Hq, (mapThrowing_renderButton s q).
Qed.

(** X9: rendering throws exactly when the session is not finished and the
    index is not the index of a question. In particular with an empty
    question list the first render throws, and the "Quiz Complete!" screen
    never does. *)
Theorem renderGame_throws_iff (s : State) :
  (renderGame s = Throw <->
   isFinished s = false /\ length FLAG_QUESTIONS <= currentQuestionIndex s) /\
  (FLAG_QUESTIONS = [] -> renderGame initialState = Throw).
Proof.
  assert (forall s', renderGame s' = Throw <->
            isFinished s' = false /\
            length FLAG_QUESTIONS <= currentQuestionIndex s') as Hiff.
  { intros s'. destruct (isFinished s') eqn:Hf.
    - unfold renderGame. rewrite Hf. split; [done|]. by intros [? _].
    - destruct (currentQuestion s') as [q|] eqn:Hq.
      + rewrite (renderGame_question s' q) by done. split; [done|].
        intros [_ Hge]. apply lookup_lt_Some in Hq. lia.
      + unfold renderGame. rewrite Hf, Hq. split; [|done]. intros _.
        split; [done|]. by apply lookup_ge_None. }
  split; [apply Hiff|].
  intros Hnil. apply Hiff. rewrite Hnil. cbn. split; [done|lia].
Qed.

(** X10: with at least one question, rendering never throws in a session,
    and the numbers on screen are in range: on the "Quiz Complete!" screen
    the score is at most the total, on the question screen the question
    number is between 1 and the total and there is one button per
    option. *)
Theorem renderGame_defined_in_session (w : World) :
  0 < length FLAG_QUESTIONS ->
  reachable w ->
  exists v,
    renderGame (store w) = Normal v /\
    match v with
    | QuizComplete scored total =>
        isFinished (store w) = true /\
        scored = score (store w) /\
        scored <= total
    | QuestionView flag buttons _ _ questionNumber total =>
        isFinished (store w) = false /\
        1 <= questionNumber <= total /\
        exists q, currentQuestion (store w) = Some q /\
                  flag = flagUrl q /\
                  length buttons = length (options q)
    end.
Proof.
  intros Hne Hr.
  destruct (reachable_Inv w Hr) as (_ & _ & _ & Hidx). specialize (Hidx Hne).
  destruct (reachable_SessionInv w Hr) as (Hscore & _).
  destruct (isFinished (store w)) eqn:Hf.
  - eexists. unfold renderGame. rewrite Hf. split; [reflexivity|].
    split_and!; [done|done|]. case_decide; lia.
  - destruct (lookup_lt_is_Some_2 FLAG_QUESTIONS _ Hidx) as [q Hq].
    eexists. rewrite (renderGame_question _ q) by done.
    split; [reflexivity|]. split_and!; [done|lia|lia|].
    exists q. split_and!; [done|done|]. by rewrite length_map.
Qed.

(** X11: the question screen. Whenever rendering gives the question
    screen, it shows the flag of the question on screen and one button per
    option, in the order of the options and with the option as its text;
    every button is disabled exactly when the evaluation is not pending;
    the class of a button is the class [getButtonClass] gives its option;
    the note "Generating fun facts..." follows [isLoadingFacts]; the facts
    panel shows [facts] exactly when the evaluation is [CORRECT] and
    [facts] is a non-empty string; the question number is the index plus
    one. *)
Theorem renderGame_question_screen (s : State) (flag : string)
    (buttons : list OptionButton) (generating : bool)
    (factsPanel : option string) (questionNumber total : nat) :
  renderGame s =
    Normal (QuestionView flag buttons generating factsPanel questionNumber total) ->
  exists q,
    currentQuestion s = Some q /\
    isFinished s = false /\
    flag = flagUrl q /\
    map label buttons = options q /\
    Forall (fun b => disabled b = true <-> answerState s <> IDLE) buttons /\
    Forall (fun b => getButtonClass s (label b) = Normal (className b)) buttons /\
    generating = isLoadingFacts s /\
    (forall text, factsPanel = Some text <->
       answerState s = CORRECT /\ facts s = Some text /\ text <> "") /\
    questionNumber = currentQuestionIndex s + 1 /\
    total = length FLAG_QUESTIONS.
Proof.
  intros Hrender.
  destruct (isFinished s) eqn:Hf.
  { unfold renderGame in Hrender. by rewrite Hf in Hrender. }
  destruct (currentQuestion s) as [q|] eqn:Hq.
  2:{ unfold renderGame in Hrender. by rewrite Hf, Hq in Hrender. }
  rewrite (renderGame_question s q) in Hrender by done.
  injection Hrender as <- <- <- <- <- <-.
  exists q. split_and!; try done.
  - rewrite map_map. cbn. by rewrite map_id.
  - apply Forall_map, Forall_forall. intros o _. cbn.
    by rewrite bool_decide_eq_true.
  - apply Forall_map, Forall_forall. intros o _. cbn.
    by rewrite (getButtonClass_defined s q).
  - intros text. unfold truthy. destruct (facts s) as [f|]; cbn.
    + destruct (String.eqb_spec f "") as [->|Hne]; cbn.
      * split; [done|]. by intros (_ & [= <-] & ?).
      * case_bool_decide; split.
        -- intros [= ->]. done.
        -- by intros (_ & [= ->] & _).
        -- done.
        -- by intros (? & _).
    + split; [done|]. by intros (_ & ? & _).
Qed.

(** X12: what the buttons of an evaluated question show, in a session.
    The button of the correct answer, and no other, has the "correct"
    class; a button has the "incorrect" class exactly when the evaluation
    is [INCORRECT] and its option is the selected one; so after a correct
    answer no button is red, and after a wrong one the red button is the
    clicked one. *)
Theorem evaluated_buttons (w : World) (q : Question) (b : OptionButton)
    (flag : string) (buttons : list OptionButton) (generating : bool)
    (factsPanel : option string) (questionNumber total : nat) :
  reachable w ->
  currentQuestion (store w) = Some q ->
  answerState (store w) <> IDLE ->
  renderGame (store w) =
    Normal (QuestionView flag buttons generating factsPanel questionNumber total) ->
  b ∈ buttons ->
  (className b = classCorrect <-> label b = correctAnswer q) /\
  (className b = classIncorrect <->
     answerState (store w) = INCORRECT /\
     selectedAnswer (store w) = Some (label b)).
Proof.
  intros Hr Hq Hbusy Hrender Hb.
  destruct (isFinished (store w)) eqn:Hf.
  { unfold renderGame in Hrender. by rewrite Hf in Hrender. }
  rewrite (renderGame_question _ q) in Hrender by done.
  injection Hrender as <- <- <- <- <- <-.
  apply list_elem_of_fmap in Hb as (o & -> & Ho).
  destruct (reachable_SessionInv w Hr) as (_ & Hsel & _).
  destruct (Hsel Hbusy) as (q' & a & Hq' & Ha & _ & Hiff).
  assert (q' = q) as -> by congruence.
  cbn. unfold visualCategory. rewrite Ha.
  rewrite decide_False by done.
  destruct (decide (o = correctAnswer q)) as [Heq|Hne].
  - split; [done|]. split; [done|].
    intros [Hinc [= ->]]. apply Hiff in Heq. congruence.
  - case_decide as Hd.
    + destruct Hd as [[= ->] _]. split; [split; [done|by intros ?]|].
      split; [|done]. intros _. split; [|done].
      destruct (answerState (store w)); [done| |done].
      by destruct Hne, Hiff as [-> _].
    + split; [split; [done|by intros ?]|]. split; [done|].
      intros [_ [= ->]]. destruct Hd. by split.
Qed.

End Game.


(** ** Concrete sessions *)

Lemma select_evaluates_witness :
  currentQuestion sampleQuestions initialState = Some sampleFrance /\
  answerState initialState = IDLE /\
  answerState (finalState (select sampleQuestions (Normal tt) "France" initialState)) = CORRECT /\
  score (finalState (select sampleQuestions (Normal tt) "France" initialState)) = 1.
Proof.
  split; [reflexivity|]. split; [reflexivity|].
  destruct (select_evaluates sampleQuestions (Normal tt) initialState sampleFrance "France"
              eq_refl eq_refl) as (_ & _ & Hc & _).
  exact (Hc eq_refl).
Defined.

Lemma select_guard_witness :
  answerState answeredItaly <> IDLE /\
  select sampleQuestions (Normal tt) "France" answeredItaly = (Normal tt, answeredItaly, []) /\
  selectMany sampleQuestions (Normal tt) ["France"; "Italy"; "France"] answeredItaly = answeredItaly.
Proof.
  assert (answerState answeredItaly <> IDLE) as H by (cbn; discriminate).
  split; [exact H|].
  exact (select_guard sampleQuestions (Normal tt) answeredItaly "France"
           ["France"; "Italy"; "France"] H).
Defined.

Lemma advance_operation_witness :
  currentQuestionIndex answeredItaly + 1 < length sampleQuestions /\
  currentQuestionIndex (finalState (advance sampleQuestions answeredItaly)) = 1 /\
  answerState (finalState (advance sampleQuestions answeredItaly)) = IDLE.
Proof.
  assert (currentQuestionIndex answeredItaly + 1 < length sampleQuestions) as H
    by (cbn; lia).
  split; [exact H|].
  destruct (advance_operation sampleQuestions (Normal tt) answeredItaly) as (Hnext & _).
  rewrite (Hnext H). split; reflexivity.
Defined.

Lemma generateFacts_contract_witness :
  @Throw unit = Throw /\
  completion (generateFacts Throw "France" initialState) = Normal tt /\
  facts (finalState (generateFacts Throw "France" initialState)) =
    Some "Sorry, I couldn't fetch any fun facts right now." /\
  isLoadingFacts (finalState (generateFacts Throw "France" initialState)) = false /\
  Normal tt = Normal tt /\
  isLoadingFacts (finalState (generateFacts (Normal tt) "France" initialState)) = true /\
  effects (generateFacts (Normal tt) "France" initialState) =
    [GenerateContent "gemini-2.5-flash" (factsPrompt "France")].
Proof.
  destruct (generateFacts_contract Throw "France" Rejected initialState
              initialState) as (_ & Hthrow & _).
  destruct (Hthrow eq_refl) as (_ & Hc & Hf & Hl & _).
  destruct (generateFacts_contract (Normal tt) "France" Rejected initialState
              initialState) as (Hready & _ & _).
  destruct (Hready eq_refl) as (_ & Hl' & _ & He).
  split; [reflexivity|]. split; [exact Hc|]. split; [exact Hf|].
  split; [exact Hl|]. split; [reflexivity|]. split; [exact Hl'|exact He].
Defined.

Lemma selectedAnswer_iff_evaluated_witness :
  reachable sampleQuestions (Normal tt) answeredItalyWorld /\
  (is_Some (selectedAnswer (store answeredItalyWorld)) <->
   answerState (store answeredItalyWorld) <> IDLE) /\
  (is_Some (selectedAnswer initialState) <-> answerState initialState <> IDLE) /\
  is_Some (currentQuestion sampleQuestions initialState) /\
  (is_Some (selectedAnswer
              (finalState (select sampleQuestions (Normal tt) "Italy" initialState))) <->
   answerState (finalState (select sampleQuestions (Normal tt) "Italy" initialState))
     <> IDLE) /\
  (is_Some (selectedAnswer answeredItaly) <-> answerState answeredItaly <> IDLE) /\
  (is_Some (selectedAnswer
              (finalState (handleNextQuestion sampleQuestions 0 answeredItaly))) <->
   answerState (finalState (handleNextQuestion sampleQuestions 0 answeredItaly))
     <> IDLE) /\
  (is_Some (selectedAnswer (finalState (restartGame answeredItaly))) <->
   answerState (finalState (restartGame answeredItaly)) <> IDLE).
Proof.
  assert (reachable sampleQuestions (Normal tt) answeredItalyWorld) as Hr
    by (by exists [Click "Italy"]).
  assert (is_Some (selectedAnswer initialState) <->
          answerState initialState <> IDLE) as Hinit
    by (cbn; split; [intros [? [=]]|done]).
  assert (is_Some (currentQuestion sampleQuestions initialState)) as Hq
    by (cbn; eauto).
  assert (is_Some (selectedAnswer answeredItaly) <->
          answerState answeredItaly <> IDLE) as Hevaluated
    by (cbn; split; [discriminate|eauto]).
  destruct (selectedAnswer_iff_evaluated sampleQuestions (Normal tt))
    as (Hreach & Hkeep).
  destruct (Hkeep initialState Hinit) as (Hselect & _ & _).
  destruct (Hkeep answeredItaly Hevaluated) as (_ & Hadvance & Hrestart).
  split; [exact Hr|]. split; [exact (Hreach answeredItalyWorld Hr)|].
  split; [exact Hinit|]. split; [exact Hq|].
  split; [exact (Hselect "Italy" Hq)|]. split; [exact Hevaluated|].
  split; [exact (Hadvance 0)|exact Hrestart].
Defined.

Lemma automatic_advance_scheduled_once_witness :
  reachable sampleQuestions (Normal tt) initialWorld /\
  isFinished (store initialWorld) = false /\
  answerState (store initialWorld) = IDLE /\
  currentQuestion sampleQuestions (store initialWorld) = Some sampleFrance /\
  "France" ∈ options sampleFrance /\
  delaysOf (effects (select sampleQuestions (Normal tt) "France" (store initialWorld))) =
    [advanceDelay "France" sampleFrance].
Proof.
  assert (reachable sampleQuestions (Normal tt) initialWorld) as Hr by (by exists []).
  assert ("France" ∈ options sampleFrance) as Hopt
    by (apply list_elem_of_In; cbn; tauto).
  split_and!; [exact Hr | reflexivity | reflexivity | reflexivity | exact Hopt |].
  destruct (automatic_advance_scheduled_once sampleQuestions (Normal tt) initialWorld
              sampleFrance "France" Hr eq_refl eq_refl eq_refl Hopt)
    as (_ & Hd & _).
  exact Hd.
Defined.

Lemma getButtonClass_cases_witness :
  currentQuestion sampleQuestions answeredItaly = Some sampleFrance /\
  getButtonClass sampleQuestions answeredItaly "Italy" =
    Normal (classOf (visualCategory INCORRECT "Italy" (Some "Italy") "France")).
Proof.
  split; [reflexivity|].
  destruct (getButtonClass_cases sampleQuestions answeredItaly sampleFrance
              "Italy" eq_refl) as (H & _).
  exact H.
Defined.

Lemma currentQuestionIndex_in_range_witness :
  0 < length sampleQuestions /\
  reachable sampleQuestions (Normal tt) finishedWorld /\
  currentQuestionIndex (store finishedWorld) < length sampleQuestions /\
  ~ currentQuestionIndex answeredBrazil + 1 < length sampleQuestions /\
  currentQuestionIndex (finalState (advance sampleQuestions answeredBrazil)) =
    currentQuestionIndex answeredBrazil /\
  isFinished (finalState (advance sampleQuestions answeredBrazil)) = true.
Proof.
  assert (0 < length sampleQuestions) as Hne by (cbn; lia).
  assert (reachable sampleQuestions (Normal tt) finishedWorld) as Hr
    by (by exists sessionAllCorrect).
  assert (~ currentQuestionIndex answeredBrazil + 1 < length sampleQuestions)
    as Hlast by (cbn; lia).
  destruct (currentQuestionIndex_in_range sampleQuestions (Normal tt) Hne)
    as (Hreach & Hadvance).
  split; [exact Hne|]. split; [exact Hr|].
  split; [exact (proj1 (Hreach finishedWorld Hr))|]. split; [exact Hlast|].
  exact (Hadvance answeredBrazil Hlast).
Defined.

(** The request of the first question is still in flight when the second
    question is on screen; its response is then written into [facts]. *)
Lemma late_response_applied_witness :
  run sampleQuestions (Normal tt) initialWorld sessionSlowResponse = Some slowResponseWorld /\
  inflight slowResponseWorld !! 0 =
    Some {| issuedAt := 0; prompt := factsPrompt "France" |} /\
  exists w',
    step sampleQuestions (Normal tt) slowResponseWorld
      (Settles 0 (Fulfilled "Paris is its capital.")) = Some w' /\
    currentQuestionIndex (store w') = 1 /\
    facts (store w') = Some "Paris is its capital." /\
    isLoadingFacts (store w') = false.
Proof.
  split; [reflexivity|]. split; [reflexivity|].
  destruct (late_response_applied sampleQuestions (Normal tt) slowResponseWorld 0 _
              (Fulfilled "Paris is its capital.") eq_refl)
    as (w' & Hstep & Hfacts & Hload & Hidx & _).
  exists w'. split_and!; [exact Hstep | exact Hidx | exact Hfacts | exact Hload].
Defined.

(** C2, counterexample: on [sampleQuestions] the response to the request of
    the first question, arriving when the second question is on screen,
    overwrites [facts] and [isLoadingFacts]. *)
Lemma stale_response_overwrites : ~ StaleResponseDiscarded sampleQuestions (Normal tt).
Proof.
  intros H.
  assert (reachable sampleQuestions (Normal tt) slowResponseWorld) as Hr
    by (by exists sessionSlowResponse).
  destruct (H slowResponseWorld 0 _ (Fulfilled "Paris is its capital.") _
              Hr eq_refl ltac:(cbn; lia) eq_refl) as [Hfacts _].
  discriminate Hfacts.
Qed.

(** C5, counterexample: [sessionAllCorrect] ends finished with the last
    request still loading; restarting from there gives a state that is not
    the initial one, [isLoadingFacts] is still true. *)
Lemma restartGame_keeps_loading :
  (exists w, run sampleQuestions (Normal tt) initialWorld sessionAllCorrect = Some w /\
             store w = finishedWhileLoading) /\
  isLoadingFacts (finalState (restartGame finishedWhileLoading)) = true /\
  finalState (restartGame finishedWhileLoading) <> initialState.
Proof.
  split; [eexists; split; [vm_compute; reflexivity|reflexivity]|].
  split; [reflexivity|discriminate].
Qed.

(** ** More concrete sessions *)

Lemma reachable_answeredItalyWorld : reachable sampleQuestions (Normal tt) answeredItalyWorld.
Proof. by exists [Click "Italy"]. Qed.

Lemma reachable_finishedWorld : reachable sampleQuestions (Normal tt) finishedWorld.
Proof. by exists sessionAllCorrect. Qed.

Lemma reachable_slowResponseWorld : reachable sampleQuestions (Normal tt) slowResponseWorld.
Proof. by exists sessionSlowResponse. Qed.

Lemma sampleAnswers_are_options :
  Forall2 (fun q a => a ∈ options q) sampleQuestions ["France"; "China"; "Brazil"].
Proof.
  repeat constructor; apply list_elem_of_In; cbn; tauto.
Qed.

Lemma score_bounded_witness :
  0 < length sampleQuestions /\
  reachable sampleQuestions (Normal tt) finishedWorld /\
  score (store finishedWorld) <= length sampleQuestions.
Proof.
  assert (0 < length sampleQuestions) as Hne by (cbn; lia).
  split; [exact Hne|]. split; [exact reachable_finishedWorld|].
  exact (proj2 (score_bounded sampleQuestions (Normal tt) finishedWorld Hne
                  reachable_finishedWorld)).
Defined.

Lemma evaluation_matches_selection_witness :
  reachable sampleQuestions (Normal tt) answeredItalyWorld /\
  answerState (store answeredItalyWorld) <> IDLE /\
  exists q a,
    currentQuestion sampleQuestions (store answeredItalyWorld) = Some q /\
    selectedAnswer (store answeredItalyWorld) = Some a /\
    a <> correctAnswer q.
Proof.
  assert (answerState (store answeredItalyWorld) <> IDLE) as Hb
    by (cbn; discriminate).
  split; [exact reachable_answeredItalyWorld|]. split; [exact Hb|].
  destruct (evaluation_matches_selection sampleQuestions (Normal tt) answeredItalyWorld
              reachable_answeredItalyWorld Hb)
    as (q & a & Hq & Ha & _ & _ & Hinc).
  exists q, a. split_and!; [exact Hq|exact Ha|]. by apply Hinc.
Defined.

Lemma loading_means_in_flight_witness :
  reachable sampleQuestions (Normal tt) slowResponseWorld /\
  isLoadingFacts (store slowResponseWorld) = true /\
  inflight slowResponseWorld <> [].
Proof.
  split; [exact reachable_slowResponseWorld|]. split; [reflexivity|].
  exact (loading_means_in_flight sampleQuestions (Normal tt) slowResponseWorld
           reachable_slowResponseWorld eq_refl).
Defined.

Lemma requests_ask_about_correct_answer_witness :
  reachable sampleQuestions (Normal tt) finishedWorld /\
  inflight finishedWorld !! 1 =
    Some {| issuedAt := 1; prompt := factsPrompt "Japan" |} /\
  exists q, sampleQuestions !! 1 = Some q /\
            factsPrompt "Japan" = factsPrompt (correctAnswer q).
Proof.
  split; [exact reachable_finishedWorld|]. split; [reflexivity|].
  exact (requests_ask_about_correct_answer sampleQuestions (Normal tt) finishedWorld 1 _
           reachable_finishedWorld eq_refl).
Defined.

Lemma requests_per_selection_witness :
  currentQuestion sampleQuestions initialState = Some sampleFrance /\
  requestsOf 0 (effects (select sampleQuestions (Normal tt) "France" initialState)) =
    [{| issuedAt := 0; prompt := factsPrompt "France" |}] /\
  requestsOf 0 (effects (select sampleQuestions Throw "France" initialState)) = [] /\
  requestsOf 0 (effects (select sampleQuestions (Normal tt) "Italy" initialState)) = [].
Proof.
  split; [reflexivity|].
  split; [exact (requests_per_selection sampleQuestions (Normal tt)
                   initialState sampleFrance "France" 0 eq_refl)|].
  split; [exact (requests_per_selection sampleQuestions Throw
                   initialState sampleFrance "France" 0 eq_refl)|].
  exact (requests_per_selection sampleQuestions (Normal tt)
           initialState sampleFrance "Italy" 0 eq_refl).
Defined.

Lemma at_most_one_timer_witness :
  reachable sampleQuestions (Normal tt) answeredItalyWorld /\
  length (timers answeredItalyWorld) <= 1.
Proof.
  split; [exact reachable_answeredItalyWorld|].
  exact (proj1 (at_most_one_timer sampleQuestions (Normal tt) answeredItalyWorld
                  reachable_answeredItalyWorld)).
Defined.

Lemma playthrough_score_witness :
  sampleQuestions <> [] /\
  Forall2 (fun q a => a ∈ options q) sampleQuestions ["France"; "China"; "Brazil"] /\
  exists w,
    run sampleQuestions (Normal tt) initialWorld
      (playthrough sampleQuestions ["France"; "China"; "Brazil"]) = Some w /\
    isFinished (store w) = true /\
    score (store w) = 2.
Proof.
  assert (sampleQuestions <> []) as Hne by discriminate.
  split; [exact Hne|]. split; [exact sampleAnswers_are_options|].
  destruct (playthrough_score sampleQuestions (Normal tt) ["France"; "China"; "Brazil"]
              Hne sampleAnswers_are_options) as (w & Hrun & Hf & Hs & _).
  exists w. split_and!; [exact Hrun|exact Hf|exact Hs].
Defined.

Lemma replay_score_witness :
  sampleQuestions <> [] /\
  reachable sampleQuestions (Normal tt) finishedWorld /\
  isFinished (store finishedWorld) = true /\
  Forall2 (fun q a => a ∈ options q) sampleQuestions ["France"; "China"; "Brazil"] /\
  exists w',
    run sampleQuestions (Normal tt) finishedWorld
      (PlayAgain :: playthrough sampleQuestions ["France"; "China"; "Brazil"])
      = Some w' /\
    score (store w') = 2.
Proof.
  assert (sampleQuestions <> []) as Hne by discriminate.
  split_and!; [exact Hne|exact reachable_finishedWorld|reflexivity
              |exact sampleAnswers_are_options|].
  destruct (replay_score sampleQuestions (Normal tt) finishedWorld
              ["France"; "China"; "Brazil"] Hne reachable_finishedWorld
              eq_refl sampleAnswers_are_options) as (w' & Hrun & _ & Hs & _).
  exists w'. split; [exact Hrun|exact Hs].
Defined.

Lemma renderGame_throws_iff_witness :
  @nil Question = [] /\ renderGame [] initialState = Throw.
Proof.
  split; [reflexivity|].
  exact (proj2 (renderGame_throws_iff [] initialState) eq_refl).
Defined.

Lemma renderGame_defined_in_session_witness :
  0 < length sampleQuestions /\
  reachable sampleQuestions (Normal tt) finishedWorld /\
  exists v, renderGame sampleQuestions (store finishedWorld) = Normal v.
Proof.
  assert (0 < length sampleQuestions) as Hne by (cbn; lia).
  split; [exact Hne|]. split; [exact reachable_finishedWorld|].
  destruct (renderGame_defined_in_session sampleQuestions (Normal tt) finishedWorld Hne
              reachable_finishedWorld) as (v & Hv & _).
  exists v. exact Hv.
Defined.

Lemma renderGame_question_screen_witness :
  renderGame sampleQuestions (store answeredItalyWorld) =
    Normal (QuestionView "https://flagcdn.com/w320/fr.png"
              answeredItalyButtons false None 1 3) /\
  exists q,
    currentQuestion sampleQuestions (store answeredItalyWorld) = Some q /\
    map label answeredItalyButtons = options q.
Proof.
  split; [reflexivity|].
  destruct (renderGame_question_screen sampleQuestions
              (store answeredItalyWorld) _ _ _ _ _ _ eq_refl)
    as (q & Hq & _ & _ & Hl & _).
  exists q. split; [exact Hq|exact Hl].
Defined.

Lemma evaluated_buttons_witness :
  reachable sampleQuestions (Normal tt) answeredItalyWorld /\
  currentQuestion sampleQuestions (store answeredItalyWorld) = Some sampleFrance /\
  answerState (store answeredItalyWorld) <> IDLE /\
  renderGame sampleQuestions (store answeredItalyWorld) =
    Normal (QuestionView "https://flagcdn.com/w320/fr.png"
              answeredItalyButtons false None 1 3) /\
  {| label := "Italy"; disabled := true; className := classIncorrect |}
    ∈ answeredItalyButtons /\
  (classIncorrect = classIncorrect <->
     answerState (store answeredItalyWorld) = INCORRECT /\
     selectedAnswer (store answeredItalyWorld) = Some "Italy").
Proof.
  assert (answerState (store answeredItalyWorld) <> IDLE) as Hb
    by (cbn; discriminate).
  assert ({| label := "Italy"; disabled := true; className := classIncorrect |}
            ∈ answeredItalyButtons) as Hin by apply list_elem_of_here.
  split_and!; [exact reachable_answeredItalyWorld|reflexivity|exact Hb
              |reflexivity|exact Hin|].
  exact (proj2 (evaluated_buttons sampleQuestions (Normal tt) answeredItalyWorld
                  sampleFrance _ _ _ _ _ _ _ reachable_answeredItalyWorld
                  eq_refl Hb eq_refl Hin)).
Defined.

(** ** [AuthScreen] and [App]: properties *)

Module AuthScreenProperties.
Import AuthScreen.

Lemma not_true v : not_ v = true <-> v = "".
Proof. unfold not_. apply String.eqb_eq. Qed.

Lemma not_false v : not_ v = false <-> v <> "".
Proof. unfold not_. apply String.eqb_neq. Qed.

Lemma submitTimeout_filled render s :
  filled render ->
  submitTimeout render s = (setIsLoading false s, [OnLogin]).
Proof.
  intros (He & Hp & Hn). unfold submitTimeout.
  apply not_false in He, Hp. rewrite He, Hp. cbn.
  destruct Hn as [->|Hn]; [done|].
  apply not_false in Hn. rewrite Hn. by rewrite andb_false_r.
Qed.

Lemma submitTimeout_unfilled render s :
  ~ filled render ->
  submitTimeout render s =
    (setIsLoading false (setError (Some "Please fill in all fields.") s), []).
Proof.
  intros Hnot. unfold submitTimeout.
  destruct (not_ (email render)) eqn:He; [done|].
  destruct (not_ (password render)) eqn:Hp; [done|].
  destruct (isSignIn render) eqn:Hs.
  { destruct Hnot. apply not_false in He, Hp. split_and!; auto. }
  destruct (not_ (name render)) eqn:Hn; [done|].
  destruct Hnot. apply not_false in He, Hp, Hn. split_and!; auto.
Qed.

Lemma filled_dec render : Decision (filled render).
Proof. unfold filled. apply _. Qed.

Lemma auth_run_app es1 : forall es2 w,
  run w (es1 ++ es2) = w1 ← run w es1; run w1 es2.
Proof.
  induction es1 as [|e es1 IH]; intros es2 w; cbn; [done|].
  destruct (step w e); cbn; [apply IH|done].
Qed.

Lemma auth_reachable_run w es w' : reachable w -> run w es = Some w' -> reachable w'.
Proof.
  intros [es0 H0] H. exists (es0 ++ es). rewrite auth_run_app, H0. exact H.
Qed.

Lemma auth_step_TimerFires_inv w i w' :
  step w (TimerFires i) = Some w' ->
  exists t, timers w !! i = Some t /\ due t <= clock w /\
    w' = {| isAuthenticated :=
              isAuthenticated w
              || callsOnLogin (snd (submitTimeout (captured t) (store w)));
            instance := instance w;
            store :=
              if negb (isAuthenticated w) && bool_decide (owner t = instance w)
              then fst (submitTimeout (captured t) (store w))
              else store w;
            clock := clock w;
            timers := delete i (timers w) |}.
Proof.
  cbn. destruct (timers w !! i) as [t|]; [|done].
  case_decide; [|done]. intros [= <-]. eauto.
Qed.

Lemma auth_Inv_initial : Inv initialWorld.
Proof. reflexivity. Qed.

Lemma auth_Inv_step w e w' : Inv w -> step w e = Some w' -> Inv w'.
Proof.
  unfold Inv. intros HI Hstep.
  destruct (isAuthenticated w) eqn:Ha, (isLoading (store w)) eqn:Hl;
    destruct e as [|i| |v|v|v| |dt].
  all: try (apply auth_step_TimerFires_inv in Hstep as (t & Ht & _ & ->)).
  all: try (rewrite HI in Ht; done).
  all: try (cbn in Hstep; rewrite ?Ha, ?Hl in Hstep; cbn in Hstep; done).
  all: try (cbn in Hstep; rewrite ?Ha, ?Hl in Hstep; cbn in Hstep;
            try (destruct (isSignIn (store w)); [done|]);
            injection Hstep as <-; cbn;
            rewrite ?Ha, ?Hl, ?app_nil_r, ?HI; cbn; by eauto).
  destruct HI as (t0 & Ht0 & Hown). rewrite Ht0 in Ht.
  destruct i as [|i]; [|done]. injection Ht as <-.
  cbn. rewrite Ha, Ht0, bool_decide_eq_true_2 by done. cbn.
  destruct (filled_dec (captured t0)) as [Hf|Hf].
  - rewrite submitTimeout_filled by done. done.
  - rewrite submitTimeout_unfilled by done. done.
Qed.

Lemma auth_Inv_run es : forall w w', Inv w -> run w es = Some w' -> Inv w'.
Proof.
  induction es as [|e es IH]; intros w w' HI; cbn.
  - by intros [= <-].
  - destruct (step w e) as [w1|] eqn:Hstep; [|done].
    intros Hrun. eapply IH; [|exact Hrun]. by eapply auth_Inv_step.
Qed.

Lemma auth_reachable_Inv w : reachable w -> Inv w.
Proof. intros [es Hes]. eapply auth_Inv_run; [apply auth_Inv_initial|exact Hes]. Qed.

Lemma auth_Awaiting_step t w e w' :
  Awaiting t w -> isTimerFires e = false -> step w e = Some w' ->
  Awaiting t w' /\ clock w <= clock w'.
Proof.
  intros (Hna & Hl & Ht & Hown) He Hstep. unfold Awaiting.
  destruct e as [|i| |v|v|v| |dt]; [|done| | | | | |]; cbn in Hstep;
    rewrite ?Hna, ?Hl in Hstep; cbn in Hstep; try done;
    try (destruct (isSignIn (store w)); [done|]);
    injection Hstep as <-; cbn; rewrite ?Hna, ?app_nil_r; cbn;
    (split; [done|lia]).
Qed.

Lemma auth_Awaiting_run t es : forall w w',
  Awaiting t w -> forallb (negb ∘ isTimerFires) es = true ->
  run w es = Some w' ->
  Awaiting t w' /\ clock w <= clock w'.
Proof.
  induction es as [|e es IH]; intros w w' HA Hes; cbn.
  - intros [= <-]. done.
  - cbn in Hes. apply andb_prop in Hes as [He Hes].
    apply negb_true_iff in He.
    destruct (step w e) as [w1|] eqn:Hstep; [|done]. intros Hrun.
    destruct (auth_Awaiting_step _ _ _ _ HA He Hstep) as [HA1 Hc1].
    destruct (IH _ _ HA1 Hes Hrun) as [HA2 Hc2]. split; [done|lia].
Qed.

(** X13: the check of a submission. The callback asks for the login
    exactly when the e-mail and the password of the submitted render are
    non-empty and, in sign-up mode, so is the name (in sign-in mode the
    name is not looked at); no credential is compared with anything.
    Otherwise it sets the error to "Please fill in all fields.". In both
    cases it clears [isLoading] and changes no other field. *)
Theorem submit_outcome (render s : State) :
  (callsOnLogin (snd (submitTimeout render s)) = true <-> filled render) /\
  (filled render ->
     submitTimeout render s = (setIsLoading false s, [OnLogin])) /\
  (~ filled render ->
     submitTimeout render s =
       (setIsLoading false (setError (Some "Please fill in all fields.") s),
        [])) /\
  (isSignIn render = true ->
     (filled render <-> email render <> "" /\ password render <> "")).
Proof.
  split_and!.
  - destruct (filled_dec render) as [Hf|Hf].
    + by rewrite submitTimeout_filled.
    + by rewrite submitTimeout_unfilled.
  - apply submitTimeout_filled.
  - apply submitTimeout_unfilled.
  - intros Hs. unfold filled. rewrite Hs.
    split; [intros (? & ? & _); by split|intros [? ?]; split_and!; auto].
Qed.

(** X14: in every world of the application no timeout of an [AuthScreen]
    is pending while the quiz is on screen; while the form is on screen
    at most one is pending, it belongs to the mounted form, and one is
    pending exactly when [isLoading] is set. *)
Theorem pending_submission (w : World) :
  reachable w ->
  (isAuthenticated w = true -> timers w = []) /\
  (isAuthenticated w = false ->
     length (timers w) <= 1 /\
     (isLoading (store w) = true <-> timers w <> []) /\
     (forall i t, timers w !! i = Some t -> owner t = instance w)).
Proof.
  intros Hr. pose proof (auth_reachable_Inv w Hr) as HI. unfold Inv in HI.
  destruct (isAuthenticated w); [by split|]. split; [done|]. intros _.
  destruct (isLoading (store w)).
  - destruct HI as (t0 & -> & Hown). cbn. split_and!; [lia|done|].
    intros [|i] t; cbn; [by intros [= <-]|done].
  - rewrite HI. cbn. split_and!; [lia|done|]. by intros i t.
Qed.

(** X15: a submission is decided by the fields as they were when the form
    was submitted. After a submission (possible whenever the form is on
    screen and not loading) the form is loading with the error cleared;
    whatever is typed or toggled meanwhile, the timer can fire exactly
    once 1000 time units have passed, and when it fires the login happens
    if and only if the fields were filled at the submission; if they were
    not, the error message is set and what was typed meanwhile stays in
    the fields. *)
Theorem submission_decided_at_submit (w : World) :
  reachable w ->
  isAuthenticated w = false ->
  isLoading (store w) = false ->
  exists w1,
    step w Submit = Some w1 /\
    isLoading (store w1) = true /\
    error (store w1) = None /\
    forall es w2,
      forallb (negb ∘ isTimerFires) es = true ->
      run w1 es = Some w2 ->
      (forall i, is_Some (step w2 (TimerFires i)) <->
                 i = 0 /\ clock w + 1000 <= clock w2) /\
      forall w3, step w2 (TimerFires 0) = Some w3 ->
        timers w3 = [] /\
        isLoading (store w3) = false /\
        (isAuthenticated w3 = true <-> filled (store w)) /\
        (~ filled (store w) ->
           error (store w3) = Some "Please fill in all fields." /\
           isSignIn (store w3) = isSignIn (store w2) /\
           email (store w3) = email (store w2) /\
           password (store w3) = password (store w2) /\
           name (store w3) = name (store w2)).
Proof.
  intros Hr Hna Hnl.
  pose proof (auth_reachable_Inv w Hr) as HI. unfold Inv in HI.
  rewrite Hna, Hnl in HI.
  set (t := {| due := clock w + 1000; owner := instance w; captured := store w |}).
  eexists. split.
  { cbn. rewrite Hna, Hnl. reflexivity. }
  cbn. split; [done|]. split; [done|].
  intros es w2 Hes Hrun.
  assert (Awaiting t (dispatch (handleSubmit (store w)) w)) as HA.
  { unfold Awaiting. cbn. rewrite Hna, HI. done. }
  destruct (auth_Awaiting_run t es _ w2 HA Hes Hrun)
    as [(Hna2 & Hl2 & Ht2 & Hown2) Hclock].
  cbn in Hclock. split.
  - intros i. cbn [step]. rewrite Ht2. destruct i as [|i]; cbn.
    + case_decide as Hd; split.
      * intros _. split; [done|lia].
      * eauto.
      * intros [? [=]].
      * intros [_ Hle]. lia.
    + split; [intros [? [=]]|intros [[=] _]].
  - intros w3 Hfire.
    apply auth_step_TimerFires_inv in Hfire as (t' & Ht' & _ & ->).
    rewrite Ht2 in Ht'. injection Ht' as <-.
    cbn. rewrite Hna2, Ht2, bool_decide_eq_true_2 by done. cbn.
    destruct (filled_dec (store w)) as [Hf|Hf].
    + rewrite submitTimeout_filled by done. cbn. by split_and!.
    + rewrite submitTimeout_unfilled by done. cbn.
      split_and!; [done|done| |done]. split; [done|]. intros ?. done.
Qed.

(** X16: the application never authenticates on its own: the only event
    that turns [isAuthenticated] from false to true is a due timer of a
    submission whose submitted fields were filled. *)
Theorem authentication_needs_filled_fields (w w' : World) (e : Event) :
  step w e = Some w' ->
  isAuthenticated w = false ->
  isAuthenticated w' = true ->
  exists i t,
    e = TimerFires i /\
    timers w !! i = Some t /\
    due t <= clock w /\
    filled (captured t).
Proof.
  intros Hstep Hna Ha'.
  destruct e as [|i| |v|v|v| |dt].
  all: try (cbn in Hstep; rewrite ?Hna in Hstep; cbn in Hstep;
            try (destruct (isLoading (store w)); [done|]);
            try (destruct (isSignIn (store w)); [done|]);
            try done;
            injection Hstep as <-; cbn in Ha'; rewrite ?Hna in Ha'; done).
  apply auth_step_TimerFires_inv in Hstep as (t & Ht & Hdue & ->).
  exists i, t. split_and!; [done|done|done|].
  cbn in Ha'. rewrite Hna in Ha'. cbn in Ha'.
  destruct (filled_dec (captured t)) as [Hf|Hf]; [done|].
  by rewrite submitTimeout_unfilled in Ha'.
Qed.

Lemma submit_outcome_witness :
  filled filledForm /\
  submitTimeout filledForm filledForm =
    (setIsLoading false filledForm, [OnLogin]).
Proof.
  assert (filled filledForm) as H by (unfold filled; cbn; auto).
  split; [exact H|].
  destruct (submit_outcome filledForm filledForm) as (_ & Hf & _).
  exact (Hf H).
Defined.

Lemma pending_submission_witness :
  reachable dueWorld /\
  isAuthenticated dueWorld = false /\
  length (timers dueWorld) <= 1.
Proof.
  assert (reachable dueWorld) as Hr.
  { exists [TypeEmail "ada@example.com"; TypePassword "secret"; Submit;
            Elapse 1000]. reflexivity. }
  split; [exact Hr|]. split; [reflexivity|].
  destruct (pending_submission dueWorld Hr) as (_ & H).
  exact (proj1 (H eq_refl)).
Defined.

Lemma submission_decided_at_submit_witness :
  reachable initialWorld /\
  isAuthenticated initialWorld = false /\
  isLoading (store initialWorld) = false /\
  exists w1, step initialWorld Submit = Some w1 /\
             isLoading (store w1) = true.
Proof.
  assert (reachable initialWorld) as Hr by (by exists []).
  split_and!; [exact Hr|reflexivity|reflexivity|].
  destruct (submission_decided_at_submit initialWorld Hr eq_refl eq_refl)
    as (w1 & Hstep & Hl & _).
  exists w1. split; [exact Hstep|exact Hl].
Defined.

Lemma authentication_needs_filled_fields_witness :
  step dueWorld (TimerFires 0) =
    Some {| isAuthenticated := true; instance := 0; store := filledForm;
            clock := 1000; timers := [] |} /\
  isAuthenticated dueWorld = false /\
  exists i t, TimerFires 0 = TimerFires i /\
              timers dueWorld !! i = Some t /\
              due t <= clock dueWorld /\
              filled (captured t).
Proof.
  split; [reflexivity|]. split; [reflexivity|].
  exact (authentication_needs_filled_fields dueWorld _ (TimerFires 0)
           eq_refl eq_refl eq_refl).
Defined.

End AuthScreenProperties.
